(** * Product analytics metrics engine: the SQL queries of [ProductAnalytics]

    The engine of [python_analysis.py] is a class whose methods send one SQL
    query each to a SQLite connection holding the two tables [users] and
    [events], and return the result table.  The methods are embedded here as
    functions from the database to the list of result rows, each query read
    clause by clause: [FROM]/[JOIN] build the joined rows, [WHERE] filters,
    [GROUP BY] partitions, the select list evaluates the aggregates on every
    group, [ORDER BY] sorts.

    Conventions of the embedding.
    - A timestamp is an instant, counted in seconds from 1970-01-01T00:00:00;
      [DATE(t)] is its day, counted in days from 1970-01-01.  SQLite renders
      a day as the text YYYY-MM-DD; on four-digit years the order and the
      equality of that text are those of the day number.
    - [strftime('%Y-%m', t)] is the pair (year, month) of the proleptic
      Gregorian calendar.
    - NULL is [None].  An aggregate over no value ([MIN], [MAX], [AVG]) is
      NULL, and so is every date function applied to NULL.
    - Counts are natural numbers.  [100.0 * a / b] and [AVG] are evaluated
      exactly, as rationals; [ROUND(x, 2)] is rounding to hundredths, half
      away from zero.  (SQLite evaluates them in binary floating point, which
      agrees with the exact value except within a rounding error of a
      half-way point.)
    - A query without [ORDER BY] fixes no order of its rows.  Groups are
      listed here in the order [remove_dups] leaves their keys; statements
      about such tables are by membership.
    - The connection is assumed readable and the tables to have the columns
      the queries name. *)

From Stdlib Require Import ZArith QArith Qround Lqa.
From stdpp Require Import base decidable option list sorting strings.

Local Open Scope Z_scope.

(** ** Calendar *)

Module Calendar.

(** Day number of the civil date [y]-[m]-[d]. *)
Definition days_from_civil (y m d : Z) : Z :=
  let y' := if m <=? 2 then y - 1 else y in
  let era := y' / 400 in
  let yoe := y' - era * 400 in
  let mp := (m + 9) mod 12 in
  let doy := (153 * mp + 2) / 5 + d - 1 in
  let doe := yoe * 365 + yoe / 4 - yoe / 100 + doy in
  era * 146097 + doe - 719468.

(** Civil date (year, month, day) of a day number. *)
Definition civil_from_days (z : Z) : Z * Z * Z :=
  let z' := z + 719468 in
  let era := z' / 146097 in
  let doe := z' - era * 146097 in
  let yoe := (doe - doe / 1460 + doe / 36524 - doe / 146096) / 365 in
  let doy := doe - (365 * yoe + yoe / 4 - yoe / 100) in
  let mp := (5 * doy + 2) / 153 in
  let d := doy - (153 * mp + 2) / 5 + 1 in
  let m := if mp <? 10 then mp + 3 else mp - 9 in
  let y := yoe + era * 400 in
  (if m <=? 2 then y + 1 else y, m, d).

Definition seconds_per_day : Z := 86400.

(** The instant at which the civil day [y]-[m]-[d] starts. *)
Definition midnight (y m d : Z) : Z := days_from_civil y m d * seconds_per_day.

End Calendar.

Export Calendar.

(** ** Tables *)

Abbreviation date := Z (only parsing).
Abbreviation year_month := (Z * Z)%type (only parsing).

(** A row of [users]. *)
Record User := mkUser {
  u_user_id : string;
  u_signup_date : Z;
  u_plan : option string;
  u_country : option string
}.

(** A row of [events]; [load_data] drops the rows without [event_id],
    [user_id] or [timestamp] and fills a missing [session_duration] with 0,
    so that only [feature] is nullable. *)
Record Event := mkEvent {
  e_event_id : Z;
  e_user_id : string;
  e_timestamp : Z;
  e_feature : option string;
  e_session_duration : Q
}.

(** What the connection [self.conn] holds. *)
Record database := mkDatabase {
  users : list User;
  events : list Event
}.

(** ** SQL functions and aggregates *)

(** [DATE(timestamp)] *)
Definition DATE (t : Z) : date := t / seconds_per_day.

(** [strftime('%Y-%m', d)] on a day; also pandas' [dt.to_period('M')]. *)
Definition strftime_Ym (d : date) : year_month :=
  let '(y, m, _) := civil_from_days d in (y, m).

(** The last day SQLite's date functions can return, 9999-12-31. *)
Definition sqlite_max_date : date := Eval vm_compute in days_from_civil 9999 12 31.

(** [DATE(d, '+{days} days')], the modifier being the f-string
    ['+{days} days'].  For a negative [days] the text reads ['+-7 days'],
    which is no modifier, and the result is NULL; it is NULL as well when
    the day falls after 9999-12-31. *)
Definition date_plus_days (d : option date) (days : Z) : option date :=
  match d with
  | None => None
  | Some d =>
      if days <? 0 then None
      else if d + days <=? sqlite_max_date then Some (d + days)
      else None
  end.

(** [MIN] and [MAX] over the values of a group. *)
Definition sql_min (l : list Z) : option Z :=
  match l with
  | [] => None
  | x :: l' => Some (foldr Z.min x l')
  end.

Definition sql_max (l : list Z) : option Z :=
  match l with
  | [] => None
  | x :: l' => Some (foldr Z.max x l')
  end.

(** [COUNT(DISTINCT x)] over the non-NULL values [l] of a group. *)
Definition count_distinct `{EqDecision A} (l : list A) : nat :=
  length (remove_dups l).

(** [SUM] of a column of 0/1 flags. *)
Definition sum_flags (l : list nat) : nat := foldr Nat.add 0%nat l.

Definition Q_of_nat (n : nat) : Q := inject_Z (Z.of_nat n).

(** [ROUND(x, 2)] *)
Definition round2 (x : Q) : Q :=
  if Qle_bool 0 x
  then Qred (Qfloor (x * 100 + (1 # 2)) # 100)
  else Qred (- (Qfloor ((- x) * 100 + (1 # 2)) # 100))%Q.

(** [ROUND(100.0 * a / b, 2)] for two counts. *)
Definition percentage (a b : nat) : Q :=
  round2 (100 * Q_of_nat a / Q_of_nat b)%Q.

(** [AVG] over the values of a group. *)
Definition sql_avg (l : list Q) : option Q :=
  match l with
  | [] => None
  | _ => Some (foldr Qplus 0%Q l / Q_of_nat (length l))%Q
  end.

(** [GROUP BY key]: the distinct keys, each with the rows that have it. *)
Definition group_by {A K} `{EqDecision K} (key : A → K) (rows : list A)
    : list (K * list A) :=
  (λ k, (k, filter (λ r, key r = k) rows)) <$> remove_dups (key <$> rows).

(** [l LEFT JOIN r ON on]: every pair that satisfies [on], and a row of [l]
    without partner once, with NULLs on the right. *)
Definition left_join {A B} (on : A → B → bool)
    (l : list A) (r : list B) : list (A * option B) :=
  a ← l;
  match filter (on a) r with
  | [] => [(a, None)]
  | bs => (λ b, (a, Some b)) <$> bs
  end.

(** [l JOIN r ON on] *)
Definition inner_join {A B} (on : A → B → bool)
    (l : list A) (r : list B) : list (A * B) :=
  a ← l; (λ b, (a, b)) <$> filter (on a) r.

(** [ORDER BY key], ascending in [le]: what the engine returns is sorted, so
    whenever the keys are pairwise distinct it is this list. *)
Definition order_by {A K} (le : relation K) `{∀ a b, Decision (le a b)}
    (key : A → K) (rows : list A) : list A :=
  merge_sort (λ a b, le (key a) (key b)) rows.

(** The order of the texts YYYY-MM, and of pandas' monthly periods. *)
Definition year_month_le (a b : year_month) : Prop :=
  a.1 < b.1 ∨ (a.1 = b.1 ∧ a.2 ≤ b.2).

#[global] Instance year_month_le_dec : RelDecision year_month_le.
Proof. intros a b. unfold year_month_le. apply _. Defined.

(** ** Result tables *)

Record dau_row := mkDau {
  d_date : date;
  d_dau : nat;
  d_month : year_month
}.

Record mau_row := mkMau {
  m_month : year_month;
  m_mau : nat
}.

Record retention_row := mkRetention {
  r_cohort : option year_month;
  r_total_users : nat;
  r_retained_users : nat;
  r_retention_rate : Q
}.

Record churn_row := mkChurn {
  c_plan : option string;
  c_total_users : nat;
  c_churned : nat;
  c_churn_rate : Q
}.

Record feature_row := mkFeature {
  f_feature : option string;
  f_total_uses : nat;
  f_unique_users : nat;
  f_avg_duration : option Q;
  f_days_active : nat
}.

Inductive engagement := High | Medium | Low.

Record segment_row := mkSegment {
  s_user_id : string;
  s_plan : option string;
  s_country : option string;
  s_total_events : nat;
  s_active_days : nat;
  s_features_used : nat;
  s_avg_session_duration : option Q;
  s_engagement_level : engagement
}.

(** ** The engine: [ProductAnalytics] *)

Definition event_date (e : Event) : date := DATE (e_timestamp e).
Definition event_month (e : Event) : year_month := strftime_Ym (event_date e).

(** *** [calculate_dau_mau] *)

(** The first query, with the [month] column pandas adds to it. *)
Definition dau_table (db : database) : list dau_row :=
  (λ '(d, g), mkDau d (count_distinct (e_user_id <$> g)) (strftime_Ym d))
    <$> order_by Z.le fst (group_by event_date (events db)).

(** The query the lambda sends for the month [name]. *)
Definition mau_of_month (db : database) (name : year_month) : nat :=
  count_distinct
    (e_user_id <$> filter (λ e, event_month e = name) (events db)).

(** [dau.groupby('month')['dau'].apply(...)]: pandas hands the lambda the
    [dau] values of each month, months ascending. *)
Definition mau_table (db : database) : list mau_row :=
  (λ '(name, x),
     mkMau name (if (0 <? length x)%nat then mau_of_month db name else 0%nat))
    <$> order_by year_month_le fst (group_by d_month (dau_table db)).

Definition calculate_dau_mau (db : database) : list dau_row * list mau_row :=
  (dau_table db, mau_table db).

(** *** [calculate_retention] *)

(** CTE [first_activity]: (user_id, first_date) *)
Definition first_activity (db : database) : list (string * option date) :=
  (λ '(u, g), (u, sql_min (event_date <$> g)))
    <$> group_by e_user_id (events db).

(** CTE [retention_check]: (user_id, first_date, returned) *)
Definition retention_check (db : database) (days : Z)
    : list (string * option date * nat) :=
  (λ '(f, e), (f.1, f.2, match e with Some _ => 1%nat | None => 0%nat end))
    <$> left_join
          (λ f e, bool_decide (f.1 = e_user_id e)
                  && bool_decide (Some (event_date e) = date_plus_days f.2 days))
          (first_activity db) (events db).

Definition calculate_retention (db : database) (days : Z)
    : list retention_row :=
  (λ '(c, g),
     let returned := (λ r, r.2) <$> g in
     mkRetention c (length g) (sum_flags returned)
       (percentage (sum_flags returned) (length g)))
    <$> group_by (λ r, strftime_Ym <$> r.1.2) (retention_check db days).

(** *** [calculate_churn] *)

(** The date written in the query, ['2024-12-31']. *)
Definition churn_reference_date : date :=
  Eval vm_compute in days_from_civil 2024 12 31.

(** CTE [user_last_activity]: (user_id, last_activity, days_inactive); the
    difference of two [julianday]s of days is a whole number of days. *)
Definition user_last_activity (db : database)
    : list (string * option date * option Z) :=
  (λ '(u, g),
     let last_activity := sql_max (event_date <$> g) in
     (u, last_activity, (λ d, churn_reference_date - d) <$> last_activity))
    <$> group_by e_user_id (events db).

(** [CASE WHEN l.days_inactive > {inactive_days} THEN 1 ELSE 0 END] *)
Definition churned_flag (inactive_days : Z) (days_inactive : option Z) : nat :=
  match days_inactive with
  | Some d => if inactive_days <? d then 1%nat else 0%nat
  | None => 0%nat
  end.

Definition calculate_churn (db : database) (inactive_days : Z)
    : list churn_row :=
  (λ '(p, g),
     let flags := (λ r, churned_flag inactive_days r.2.2) <$> g in
     mkChurn p (length g) (sum_flags flags)
       (percentage (sum_flags flags) (length g)))
    <$> group_by (λ r, u_plan r.1)
          (inner_join (λ u l, bool_decide (u_user_id u = l.1.1))
             (users db) (user_last_activity db)).

(** *** [feature_adoption] *)

(** The query up to its [GROUP BY]. *)
Definition feature_groups (db : database) : list feature_row :=
  (λ '(f, g),
     mkFeature f (length g) (count_distinct (e_user_id <$> g))
       (round2 <$> sql_avg (e_session_duration <$> g))
       (count_distinct (event_date <$> g)))
    <$> group_by e_feature (filter (λ e, e_feature e ≠ None) (events db)).

(** [ORDER BY total_uses DESC] sorts on this one key. *)
Definition feature_adoption (db : database) : list feature_row :=
  order_by (flip le) f_total_uses (feature_groups db).

(** What [ORDER BY total_uses DESC] promises of a result [out]: the rows of
    the groups, in non-increasing [total_uses].  Rows of equal [total_uses]
    may come in any order. *)
Definition feature_adoption_allows (db : database) (out : list feature_row)
    : Prop :=
  out ≡ₚ feature_groups db
  ∧ Sorted (λ a b, (f_total_uses b ≤ f_total_uses a)%nat) out.

(** *** [user_segmentation] *)

Definition engagement_of (total_events : nat) : engagement :=
  if (100 <? total_events)%nat then High
  else if (20 <? total_events)%nat then Medium
  else Low.

Definition user_segmentation (db : database) : list segment_row :=
  (λ '(k, g),
     let es := omap snd g in
     mkSegment k.1.1 k.1.2 k.2
       (length es)
       (count_distinct (event_date <$> es))
       (count_distinct (omap e_feature es))
       (round2 <$> sql_avg (e_session_duration <$> es))
       (engagement_of (length es)))
    <$> group_by (λ r, (u_user_id r.1, u_plan r.1, u_country r.1))
          (left_join (λ u e, bool_decide (u_user_id u = e_user_id e))
             (users db) (events db)).

(** ** The dashboard: [load_metrics] *)

(** The ['mau'] query of [load_metrics]: one [GROUP BY month ORDER BY month]. *)
Definition load_metrics_mau (db : database) : list mau_row :=
  (λ '(m, g), mkMau m (count_distinct (e_user_id <$> g)))
    <$> order_by year_month_le fst (group_by event_month (events db)).

(** ** Vocabulary of the statements *)

(** The users with an event on the day [d], and in the month [m]. *)
Definition users_on (db : database) (d : date) : list string :=
  e_user_id <$> filter (λ e, event_date e = d) (events db).

Definition users_in (db : database) (m : year_month) : list string :=
  e_user_id <$> filter (λ e, event_month e = m) (events db).

(** The events of one user. *)
Definition events_of (db : database) (uid : string) : list Event :=
  filter (λ e, e_user_id e = uid) (events db).

Definition first_date (db : database) (uid : string) : option date :=
  sql_min (event_date <$> events_of db uid).

Definition last_activity_date (db : database) (uid : string) : option date :=
  sql_max (event_date <$> events_of db uid).

(** ** Churn by plan, in the words of the specification *)

(** "Users with no events are excluded": the users that qualify. *)
Definition has_events (db : database) (u : User) : Prop :=
  u_user_id u ∈ e_user_id <$> events db.

#[global] Instance has_events_dec db u : Decision (has_events db u).
Proof. unfold has_events. apply _. Defined.

(** "days_inactive = asOfDate - last_activity_date" *)
Definition days_inactive (as_of : date) (db : database) (uid : string)
    : option Z :=
  (λ d, as_of - d) <$> last_activity_date db uid.

(** "A user is churned if days_inactive > inactiveDaysThreshold." *)
Definition is_churned (as_of : date) (threshold : Z) (db : database)
    (u : User) : bool :=
  match days_inactive as_of db (u_user_id u) with
  | Some d => bool_decide (threshold < d)
  | None => false
  end.

(** "Output per plan: total_users (users of that plan with at least one
    event), churned, churn_rate rounded to 2 decimals", the reference date
    [as_of] being a parameter. *)
Definition spec_churn_by_plan (as_of : date) (db : database) (threshold : Z)
    : list churn_row :=
  let qualifying := filter (has_events db) (users db) in
  (λ p,
     let of_plan := filter (λ u, u_plan u = p) qualifying in
     let gone := filter (is_churned as_of threshold db) of_plan in
     mkChurn p (length of_plan) (length gone)
       (percentage (length gone) (length of_plan)))
    <$> remove_dups (u_plan <$> qualifying).

(** The row of [user_last_activity] for the user [uid], and the row of the
    join for a user that has events. *)
Definition last_activity_row (db : database) (uid : string)
    : string * option date * option Z :=
  (uid, last_activity_date db uid, days_inactive churn_reference_date db uid).

Definition churn_join_row (db : database) (u : User)
    : User * (string * option date * option Z) :=
  (u, last_activity_row db (u_user_id u)).

(** "Churn reference date (default: max event date observed ...)" *)
Definition max_event_date (db : database) : option date :=
  sql_max (event_date <$> events db).

(** ** Sample snapshots *)

Definition event_at (id : Z) (uid : string) (y m d : Z) : Event :=
  mkEvent id uid (midnight y m d) None 0.

Definition used_at (id : Z) (uid : string) (y m d : Z) (f : string) (s : Q)
    : Event :=
  mkEvent id uid (midnight y m d + 3600) (Some f) s.

Definition user_on_plan (uid p : string) : User :=
  mkUser uid (midnight 2023 6 1) (Some p) None.

(** Three days of activity over two months. *)
Definition db_two_months : database :=
  mkDatabase
    [user_on_plan "u1" "Free"; user_on_plan "u2" "Pro"]
    [used_at 1 "u1" 2024 1 1 "search" 30; used_at 2 "u2" 2024 1 1 "export" 10;
     used_at 3 "u1" 2024 1 20 "search" 50; used_at 4 "u3" 2024 2 3 "search" 5;
     used_at 5 "u1" 2024 2 3 "export" 20].

(** The retention example of the specification: [u1] is back on the
    eighth day, [u2] is not. *)
Definition db_week_later : database :=
  mkDatabase []
    [event_at 1 "u1" 2024 1 1; event_at 2 "u1" 2024 1 8;
     event_at 3 "u2" 2024 1 1].

(** The same two users, [u1] with two events on the eighth day. *)
Definition db_two_returns : database :=
  mkDatabase []
    [event_at 1 "u1" 2024 1 1;
     mkEvent 2 "u1" (midnight 2024 1 8 + 32400) None 0;
     mkEvent 3 "u1" (midnight 2024 1 8 + 61200) None 0;
     event_at 4 "u2" 2024 1 1].

(** The churn example of the specification: two users of one plan, last
    active on 2024-11-01 and on 2024-01-01. *)
Definition db_churn_example : database :=
  mkDatabase
    [user_on_plan "u1" "planA"; user_on_plan "u2" "planA"]
    [event_at 1 "u1" 2024 10 3; event_at 2 "u1" 2024 11 1;
     event_at 3 "u2" 2024 1 1].

(** A user without events next to an active one. *)
Definition db_idle_user : database :=
  mkDatabase
    [user_on_plan "u1" "Free"; user_on_plan "u9" "Pro"]
    [used_at 1 "u1" 2024 3 5 "search" 12].


(** Two features used once each. *)
Definition db_feature_tie : database :=
  mkDatabase []
    [used_at 1 "u1" 2024 1 1 "b" 1; used_at 2 "u2" 2024 1 1 "a" 2].

(** ** Snapshots with a user left out *)

Definition without_user (db : database) (uid : string) : database :=
  mkDatabase (filter (λ u, u_user_id u ≠ uid) (users db)) (events db).

Definition without_events_of (db : database) (uid : string) : database :=
  mkDatabase (users db) (filter (λ e, e_user_id e ≠ uid) (events db)).

(** ** The order the specification asks of feature adoption *)

Definition name_lt (a b : option string) : Prop :=
  match a, b with
  | Some x, Some y => String.ltb x y = true
  | _, _ => False
  end.

(** "[total_uses] descending; ties broken by feature name ascending" *)
Definition spec_adoption_order (a b : feature_row) : Prop :=
  (f_total_uses b < f_total_uses a)%nat
  ∨ (f_total_uses a = f_total_uses b ∧ name_lt (f_feature a) (f_feature b)).

(** ** How a call ends *)

(** The conditions the specification names for a call that fails. *)
Inductive condition :=
  | StorageUnavailable
  | SchemaMismatch
  | InvalidParameter (parameter : string) (value : Z).

Inductive outcome (T : Type) :=
  | Returned (table : T)
  | Raised (c : condition).
Arguments Returned {T} table.
Arguments Raised {T} c.

(** [calculate_retention(days)] and [calculate_churn(inactive_days)] as
    called: the body of either method is the query text and
    [return pd.read_sql(query, self.conn)]; nothing looks at the argument
    before it is formatted into the text. *)
Definition call_calculate_retention (db : database) (days : Z)
    : outcome (list retention_row) :=
  Returned (calculate_retention db days).

Definition call_calculate_churn (db : database) (inactive_days : Z)
    : outcome (list churn_row) :=
  Returned (calculate_churn db inactive_days).

(** ** [load_data]: cleaning the frames read from the CSV files *)

(** A row of the frame [users] and of the frame [events] as [pd.read_csv]
    and [pd.to_datetime] leave them: any cell may be missing. *)
Record raw_user := mkRawUser {
  ru_user_id : option string;
  ru_signup_date : option Z;
  ru_plan : option string;
  ru_country : option string
}.

Record raw_event := mkRawEvent {
  re_event_id : option Z;
  re_user_id : option string;
  re_timestamp : option Z;
  re_feature : option string;
  re_session_duration : option Q
}.

(** [df.drop_duplicates(subset=[key])]: of the rows with one key the first
    stays.  [seen] are the keys of the rows gone by. *)
Fixpoint drop_duplicates_from {A K} `{EqDecision K} (key : A → K)
    (seen : list K) (rows : list A) : list A :=
  match rows with
  | [] => []
  | r :: rest =>
      if decide (key r ∈ seen) then drop_duplicates_from key seen rest
      else r :: drop_duplicates_from key (key r :: seen) rest
  end.

Definition drop_duplicates {A K} `{EqDecision K} (key : A → K)
    (rows : list A) : list A :=
  drop_duplicates_from key [] rows.

(** [users.dropna(subset=['user_id', 'signup_date'])]: a row that stays, as
    the row of the table [users] it becomes. *)
Definition clean_user (r : raw_user) : option User :=
  match ru_user_id r, ru_signup_date r with
  | Some uid, Some d => Some (mkUser uid d (ru_plan r) (ru_country r))
  | _, _ => None
  end.

(** [events.dropna(subset=['event_id', 'user_id', 'timestamp'])] and
    [events['session_duration'].fillna(0)]. *)
Definition clean_event (r : raw_event) : option Event :=
  match re_event_id r, re_user_id r, re_timestamp r with
  | Some i, Some uid, Some t =>
      Some (mkEvent i uid t (re_feature r) (default 0%Q (re_session_duration r)))
  | _, _, _ => None
  end.

(** [load_data]: the two tables it writes with [to_sql(if_exists='replace')]. *)
Definition load_data (csv_users : list raw_user) (csv_events : list raw_event)
    : database :=
  mkDatabase
    (omap clean_user (drop_duplicates ru_user_id csv_users))
    (omap clean_event (drop_duplicates re_event_id csv_events)).

(** The frames that hold the rows of a database. *)
Definition user_frame (db : database) : list raw_user :=
  (λ u, mkRawUser (Some (u_user_id u)) (Some (u_signup_date u))
          (u_plan u) (u_country u)) <$> users db.

Definition event_frame (db : database) : list raw_event :=
  (λ e, mkRawEvent (Some (e_event_id e)) (Some (e_user_id e))
          (Some (e_timestamp e)) (e_feature e) (Some (e_session_duration e)))
    <$> events db.

(** ** [cohort_analysis] *)

Record cohort_row := mkCohort {
  k_cohort_month : year_month;
  k_activity_month : year_month;
  k_active_users : nat
}.

(** [ORDER BY c.cohort_month, activity_month] *)
Definition cohort_key_le (a b : year_month * year_month) : Prop :=
  (a.1 ≠ b.1 ∧ year_month_le a.1 b.1) ∨ (a.1 = b.1 ∧ year_month_le a.2 b.2).

#[global] Instance cohort_key_le_dec : RelDecision cohort_key_le.
Proof. intros a b. unfold cohort_key_le. apply _. Defined.

(** CTE [cohorts]: (user_id, cohort_month) *)
Definition cohorts (db : database) : list (string * year_month) :=
  (λ u, (u_user_id u, strftime_Ym (DATE (u_signup_date u)))) <$> users db.

Definition cohort_analysis (db : database) : list cohort_row :=
  (λ '(k, g), mkCohort k.1 k.2 (count_distinct ((λ r, e_user_id r.2) <$> g)))
    <$> order_by cohort_key_le fst
          (group_by (λ r, (r.1.2, event_month r.2))
             (inner_join (λ c e, bool_decide (c.1 = e_user_id e))
                (cohorts db) (events db))).

(** ** [generate_summary_report]: the figures it prints *)

(** [MAX(strftime('%Y-%m', timestamp))] *)
Definition later_month (a b : year_month) : year_month :=
  if decide (year_month_le a b) then b else a.

Definition sql_max_month (l : list year_month) : option year_month :=
  match l with
  | [] => None
  | x :: l' => Some (foldr later_month x l')
  end.

(** [a / b] on two counts read from a frame: numpy gives [inf] or [nan],
    here [None], when [b] is 0. *)
Definition ratio (a b : nat) : option Q :=
  if decide (b = 0%nat) then None else Some (Q_of_nat a / Q_of_nat b)%Q.

Record summary_report := mkReport {
  sr_total_users : nat;
  sr_total_events : nat;
  sr_events_per_user : option Q;
  sr_latest_dau : nat;
  sr_latest_mau : nat;
  sr_dau_mau_percent : option Q;
  sr_top_features : list feature_row;
  sr_plans : list (option string * nat * option Q);
  sr_avg_retention : option Q;
  sr_avg_churn : option Q
}.

(** [SELECT COUNT(DISTINCT user_id) FROM events WHERE DATE(timestamp) =
    (SELECT MAX(DATE(timestamp)) FROM events)] *)
Definition latest_dau (db : database) : nat :=
  count_distinct
    (e_user_id <$> filter (λ e, Some (event_date e)
                                = sql_max (event_date <$> events db))
                     (events db)).

(** The same with [strftime('%Y-%m', timestamp)]. *)
Definition latest_mau (db : database) : nat :=
  count_distinct
    (e_user_id <$> filter (λ e, Some (event_month e)
                                = sql_max_month (event_month <$> events db))
                     (events db)).

(** [SELECT plan, COUNT( * ) as cnt FROM users GROUP BY plan] *)
Definition plan_counts (db : database) : list (option string * nat) :=
  (λ '(p, g), (p, length g)) <$> group_by u_plan (users db).

Definition generate_summary_report (db : database) : summary_report :=
  let total_users := length (users db) in
  let total_events := length (events db) in
  mkReport total_users total_events (ratio total_events total_users)
    (latest_dau db) (latest_mau db)
    ((λ q, q * 100)%Q <$> ratio (latest_dau db) (latest_mau db))
    (take 3 (feature_adoption db))
    ((λ '(p, cnt), (p, cnt, (λ q, q * 100)%Q <$> ratio cnt total_users))
       <$> plan_counts db)
    (sql_avg (r_retention_rate <$> calculate_retention db 7))
    (sql_avg (c_churn_rate <$> calculate_churn db 30)).

(** ** Further vocabulary *)

(** [SUM] of a column of counts. *)
Definition sum_counts (l : list nat) : nat := foldr Nat.add 0%nat l.

(** No user has two events on one day. *)
Definition one_event_per_day (db : database) : Prop :=
  NoDup ((λ e, (e_user_id e, event_date e)) <$> events db).

(** The users whose first event is in the month [c], and those of them with
    an event [days] days after their first. *)
Definition cohort_users (db : database) (c : option year_month) : list string :=
  filter (λ u, strftime_Ym <$> first_date db u = c)
    (remove_dups (e_user_id <$> events db)).

Definition came_back (db : database) (days : Z) (u : string) : Prop :=
  ∃ e, e ∈ events db ∧ e_user_id e = u
       ∧ Some (event_date e) = date_plus_days (first_date db u) days.

#[global] Instance came_back_dec db days u : Decision (came_back db days u).
Proof.
  refine (cast_if (decide (Exists (λ e, e_user_id e = u
             ∧ Some (event_date e) = date_plus_days (first_date db u) days)
             (events db))));
    unfold came_back; rewrite Exists_exists in *; naive_solver.
Defined.

(** The number of events a user has [days] days after the first. *)
Definition returns (db : database) (days : Z) (u : string) : nat :=
  length (filter (λ e, e_user_id e = u
                       ∧ Some (event_date e)
                         = date_plus_days (first_date db u) days)
            (events db)).

(** The segmentation row of a user, from the events of that user. *)
Definition segment_of (db : database) (u : User) : segment_row :=
  let ev := events_of db (u_user_id u) in
  mkSegment (u_user_id u) (u_plan u) (u_country u)
    (length ev)
    (count_distinct (event_date <$> ev))
    (count_distinct (omap e_feature ev))
    (round2 <$> sql_avg (e_session_duration <$> ev))
    (engagement_of (length ev)).

(** Sample frames: the second row of ["u1"] repeats its id, the row of
    ["u2"] has no signup date, a later row of ["u2"] has one. *)
Definition csv_users_sample : list raw_user :=
  [mkRawUser (Some "u1") (Some (midnight 2023 6 1)) (Some "Free") None;
   mkRawUser (Some "u1") (Some (midnight 2023 7 1)) (Some "Pro") None;
   mkRawUser (Some "u2") None (Some "Pro") (Some "DE");
   mkRawUser (Some "u2") (Some (midnight 2023 8 1)) (Some "Pro") (Some "DE");
   mkRawUser None (Some (midnight 2023 8 1)) None None].

Definition csv_events_sample : list raw_event :=
  [mkRawEvent (Some 1) (Some "u1") (Some (midnight 2024 1 1)) (Some "search") None;
   mkRawEvent (Some 1) (Some "u1") (Some (midnight 2024 1 2)) None (Some 5%Q);
   mkRawEvent (Some 2) None (Some (midnight 2024 1 2)) None (Some 5%Q);
   mkRawEvent (Some 3) (Some "u1") (Some (midnight 2024 1 9)) None (Some 7%Q)].

(** ** The calendar, era by era *)

(** The calendar repeats every 400 years, 146097 days. *)
Definition days_per_era : Z := 146097.

(** The date of the day [doe] of an era, years counted within the era;
    [civil_from_days] less the era. *)
Definition cycle_date (doe : Z) : Z * Z * Z :=
  let yoe := (doe - doe / 1460 + doe / 36524 - doe / 146096) / 365 in
  let doy := doe - (365 * yoe + yoe / 4 - yoe / 100) in
  let mp := (5 * doy + 2) / 153 in
  let d := doy - (153 * mp + 2) / 5 + 1 in
  let m := if mp <? 10 then mp + 3 else mp - 9 in
  (if m <=? 2 then yoe + 1 else yoe, m, d).

Definition cycle_month (doe : Z) : year_month :=
  let '(y, m, _) := cycle_date doe in (y, m).

Definition year_month_leb (a b : year_month) : bool :=
  (a.1 <? b.1) || ((a.1 =? b.1) && (a.2 <=? b.2)).

(** A month of an era: the era runs from March of its year 0 to February of
    its year 400. *)
Definition month_of_era (a : year_month) : bool :=
  (0 <=? a.1) && (a.1 <=? 400) && (1 <=? a.2) && (a.2 <=? 12)
  && ((a.1 <? 400) || (a.2 <=? 2)) && ((0 <? a.1) || (3 <=? a.2)).

(** The months of the [n] days from [doe] on are months of an era and never
    go back, [prev] being the month of the day before. *)
Fixpoint cycle_scan (n : nat) (doe : Z) (prev : year_month) : bool :=
  match n with
  | O => true
  | S n' =>
      let c := cycle_month doe in
      if month_of_era c && year_month_leb prev c
      then cycle_scan n' (doe + 1) c
      else false
  end.

(** ** The joins, user by user *)

(** The rows a user brings to the left join of [user_segmentation]. *)
Definition joined_rows (db : database) (u : User) : list (User * option Event) :=
  match filter (λ e, bool_decide (u_user_id u = e_user_id e)) (events db) with
  | [] => [(u, None)]
  | es => (λ e, (u, Some e)) <$> es
  end.

Definition segment_key (u : User) : string * option string * option string :=
  (u_user_id u, u_plan u, u_country u).


(** The rows a user brings to [retention_check]. *)
Definition retention_rows_of (db : database) (days : Z)
    (f : string * option date) : list (string * option date * nat) :=
  match filter (λ e, bool_decide (f.1 = e_user_id e)
                     && bool_decide (Some (event_date e)
                                     = date_plus_days f.2 days))
          (events db) with
  | [] => [(f.1, f.2, 0%nat)]
  | es => (λ _, (f.1, f.2, 1%nat)) <$> es
  end.

(** The rows the join of [cohort_analysis] has. *)
Definition cohort_join (db : database) : list (string * year_month * Event) :=
  inner_join (λ c e, bool_decide (c.1 = e_user_id e)) (cohorts db) (events db).

Definition cohort_key (r : string * year_month * Event)
    : year_month * year_month :=
  (r.1.2, event_month r.2).

(** ** Facts about the SQL operators *)

Section group_by_facts.
Context {A K : Type} `{EqDecision K} (key : A → K).

Lemma group_by_keys (rows : list A) :
  (group_by key rows).*1 = remove_dups (key <$> rows).
Proof.
  unfold group_by. rewrite <-list_fmap_compose.
  induction (remove_dups (key <$> rows)); csimpl; congruence.
Qed.

Lemma elem_of_group_by (rows : list A) k g :
  (k, g) ∈ group_by key rows
  ↔ k ∈ key <$> rows ∧ g = filter (λ r, key r = k) rows.
Proof.
  unfold group_by. rewrite list_elem_of_fmap. split.
  - intros (k' & [= -> ->] & Hk). rewrite elem_of_remove_dups in Hk. by split.
  - intros [Hk ->]. exists k. split; [done | by rewrite elem_of_remove_dups].
Qed.

Lemma group_by_NoDup (rows : list A) : NoDup (group_by key rows).*1.
Proof. rewrite group_by_keys. apply NoDup_remove_dups. Qed.

Lemma group_by_nil : group_by key [] = [].
Proof. done. Qed.

(** A group has at least the row that brought its key. *)
Lemma group_by_inhabited (rows : list A) k g :
  (k, g) ∈ group_by key rows → (0 < length g)%nat.
Proof.
  rewrite elem_of_group_by, list_elem_of_fmap.
  intros [(r & -> & Hr) ->].
  assert (r ∈ filter (λ r', key r' = key r) rows) as Hin
    by (by apply list_elem_of_filter).
  destruct (filter _ rows); [by apply elem_of_nil in Hin | simpl; lia].
Qed.
End group_by_facts.

Section order_by_facts.
Context {K V : Type} (le : relation K) `{!RelDecision le}.
Context `{!Transitive le, !AntiSymm (=) le, !Total le}.

(** Sorting rows that are a function of their key is sorting the keys. *)
Lemma order_by_tabulate (f : K → V) (ks : list K) :
  order_by le fst ((λ k, (k, f k)) <$> ks)
  = (λ k, (k, f k)) <$> merge_sort le ks.
Proof.
  unfold order_by.
  assert (Transitive (λ a b : K * V, le a.1 b.1)) as HT.
  { intros x y z. apply transitivity. }
  assert (Total (λ a b : K * V, le a.1 b.1)) as HTot.
  { intros x y. apply (total le). }
  apply (Sorted_unique_strong (λ a b : K * V, le a.1 b.1)).
  - intros x1 x2 Hx1 Hx2 H12 H21.
    apply list_elem_of_fmap in Hx2 as (k2 & -> & _).
    rewrite merge_sort_Permutation in Hx1.
    apply list_elem_of_fmap in Hx1 as (k1 & -> & _).
    simpl in *. by rewrite (anti_symm le k1 k2).
  - by apply Sorted_merge_sort.
  - apply (Sorted_fmap _ le); [done|]. by apply Sorted_merge_sort.
  - by rewrite !merge_sort_Permutation.
Qed.

(** Two sorted lists of distinct keys with the same members are equal. *)
Lemma sorted_keys_unique (l1 l2 : list K) `{EqDecision K} :
  (∀ k, k ∈ l1 ↔ k ∈ l2) →
  merge_sort le (remove_dups l1) = merge_sort le (remove_dups l2).
Proof.
  intros Hmem. apply (Sorted_unique le); try apply (Sorted_merge_sort le).
  rewrite !(merge_sort_Permutation le).
  apply NoDup_Permutation; try apply NoDup_remove_dups.
  intros k. by rewrite !elem_of_remove_dups.
Qed.
End order_by_facts.

#[global] Instance year_month_le_trans : Transitive year_month_le.
Proof. intros [??] [??] [??]; unfold year_month_le; simpl; lia. Qed.
#[global] Instance year_month_le_antisymm : AntiSymm (=) year_month_le.
Proof.
  intros [??] [??]; unfold year_month_le; simpl; intros ??.
  f_equal; lia.
Qed.
#[global] Instance year_month_le_total : Total year_month_le.
Proof. intros [??] [??]; unfold year_month_le; simpl; lia. Qed.

Section count_distinct_facts.
Context {A : Type} `{EqDecision A}.

Lemma count_distinct_mono (l k : list A) :
  (∀ x, x ∈ l → x ∈ k) → (count_distinct l ≤ count_distinct k)%nat.
Proof.
  intros Hsub. unfold count_distinct. apply submseteq_length.
  apply NoDup_submseteq; [apply NoDup_remove_dups|].
  intros x. rewrite !elem_of_remove_dups. apply Hsub.
Qed.

Lemma count_distinct_nil : count_distinct (@nil A) = 0%nat.
Proof. done. Qed.
End count_distinct_facts.

Lemma filter_nothing {A} (P : A → Prop) `{∀ x, Decision (P x)} (l : list A) :
  (∀ x, ¬ P x) → filter P l = [].
Proof.
  intros HP. induction l as [|x l IH]; [done|].
  by rewrite filter_cons_False.
Qed.

Section join_facts.
Context {A B : Type} (on : A → B → bool).

Lemma elem_of_left_join (l : list A) (r : list B) a ob :
  (a, ob) ∈ left_join on l r
  ↔ a ∈ l ∧ match ob with
            | Some b => b ∈ r ∧ on a b
            | None => ∀ b, b ∈ r → ¬ on a b
            end.
Proof.
  unfold left_join. rewrite list_elem_of_bind. split.
  - intros (a' & Hin & Ha'). destruct (filter (on a') r) as [|b0 bs] eqn:Hf.
    + apply list_elem_of_singleton in Hin as [= -> ->]. split; [done|].
      intros b Hb Hon.
      assert (b ∈ filter (on a') r) as Hbf by (by apply list_elem_of_filter).
      rewrite Hf in Hbf. by apply elem_of_nil in Hbf.
    + apply list_elem_of_fmap in Hin as (b & [= -> ->] & Hb).
      rewrite <-Hf in Hb. apply list_elem_of_filter in Hb as [??]. done.
  - intros [Ha Hob]. exists a. split; [|done].
    destruct ob as [b|].
    + destruct Hob as [Hb Hon].
      assert (b ∈ filter (on a) r) as Hbf by (by apply list_elem_of_filter).
      destruct (filter (on a) r) as [|b0 bs] eqn:Hf;
        [by apply elem_of_nil in Hbf|].
      apply list_elem_of_fmap. by exists b.
    + destruct (filter (on a) r) as [|b0 bs] eqn:Hf;
        [by apply list_elem_of_singleton|].
      exfalso. assert (b0 ∈ filter (on a) r) as Hbf by (rewrite Hf; left).
      apply list_elem_of_filter in Hbf as [??]. naive_solver.
Qed.

(** Every row of the left table survives a left join. *)
Lemma left_join_covers (l : list A) (r : list B) a :
  a ∈ l → ∃ ob, (a, ob) ∈ left_join on l r.
Proof.
  intros Ha. destruct (filter (on a) r) as [|b0 bs] eqn:Hf.
  - exists None. apply elem_of_left_join. split; [done|].
    intros b Hb Hon.
    assert (b ∈ filter (on a) r) as Hbf by (by apply list_elem_of_filter).
    rewrite Hf in Hbf. by apply elem_of_nil in Hbf.
  - exists (Some b0). apply elem_of_left_join. split; [done|].
    assert (b0 ∈ filter (on a) r) as Hbf by (rewrite Hf; left).
    by apply list_elem_of_filter in Hbf as [??].
Qed.

(** Without any partner the left join is the left table. *)
Lemma left_join_no_partner (l : list A) (r : list B) :
  (∀ a b, a ∈ l → ¬ on a b) →
  left_join on l r = (λ a, (a, None)) <$> l.
Proof.
  unfold left_join. induction l as [|a l IH]; intros Hno; [done|].
  rewrite bind_cons, fmap_cons, IH by (intros; apply Hno; by right).
  rewrite filter_nothing; [done|]. intros b. apply Hno. left.
Qed.

Lemma elem_of_inner_join (l : list A) (r : list B) a b :
  (a, b) ∈ inner_join on l r ↔ a ∈ l ∧ b ∈ r ∧ on a b.
Proof.
  unfold inner_join. rewrite list_elem_of_bind. split.
  - intros (a' & (b' & [= -> ->] & Hb)%list_elem_of_fmap & Ha).
    apply list_elem_of_filter in Hb as [??]. done.
  - intros (Ha & Hb & Hon). exists a. split; [|done].
    apply list_elem_of_fmap. exists b. split; [done|].
    by apply list_elem_of_filter.
Qed.
End join_facts.

(** ** Facts about filters and aggregates *)

Lemma filter_ext_in {A} (P1 P2 : A → Prop)
    `{!∀ x, Decision (P1 x), !∀ x, Decision (P2 x)} (l : list A) :
  (∀ x, x ∈ l → P1 x ↔ P2 x) → filter P1 l = filter P2 l.
Proof.
  induction l as [|a l IH]; intros Hiff; [done|].
  rewrite !filter_cons, IH by (intros; apply Hiff; by right).
  apply decide_ext, Hiff. left.
Qed.

Lemma filter_fmap_comm {A B} (f : A → B) (P : B → Prop)
    `{∀ y, Decision (P y)} (l : list A) :
  filter P (f <$> l) = f <$> filter (P ∘ f) l.
Proof.
  induction l as [|x l IH]; [done|]. csimpl.
  rewrite !filter_cons. simpl. destruct (decide (P (f x))); csimpl; congruence.
Qed.

Lemma sum_flags_filter {A} (b : A → bool) (l : list A) :
  sum_flags ((λ x, if b x then 1%nat else 0%nat) <$> l) = length (filter b l).
Proof.
  induction l as [|x l IH]; [done|]. csimpl. rewrite filter_cons, IH.
  destruct (b x); simpl; done.
Qed.

(** In a table keyed by distinct keys, the rows of one key. *)
Lemma filter_keyed {K V} `{EqDecision K} (G : K → V) (key : V → K)
    (k : K) (ks : list K) :
  (∀ k', key (G k') = k') → NoDup ks →
  filter (λ v, bool_decide (k = key v)) (G <$> ks)
  = if decide (k ∈ ks) then [G k] else [].
Proof.
  intros Hkey. induction 1 as [|k0 ks Hk0 Hks IH]; [done|].
  csimpl. rewrite filter_cons, Hkey, IH.
  destruct (decide (k = k0)) as [->|Hne].
  - rewrite decide_True by (by apply bool_decide_pack).
    rewrite decide_False by done. rewrite decide_True by left. done.
  - rewrite decide_False by (by intros ?%bool_decide_unpack).
    destruct (decide (k ∈ ks)) as [Hin|Hout].
    + rewrite decide_True; [done | by right].
    + rewrite decide_False; [done|]. by intros [?|?]%elem_of_cons.
Qed.

Lemma omap_nothing {A B} (f : A → option B) (l : list A) :
  Forall (λ x, f x = None) l → omap f l = [].
Proof. induction 1 as [|x l Hx _ IH]; [done|]. csimpl. by rewrite Hx, IH. Qed.

Lemma sql_max_spec (l : list Z) (m : Z) :
  sql_max l = Some m ↔ m ∈ l ∧ ∀ x, x ∈ l → x ≤ m.
Proof.
  destruct l as [|x l]; simpl.
  { split; [done|]. by intros [?%elem_of_nil _]. }
  assert (foldr Z.max x l ∈ x :: l ∧ ∀ y, y ∈ x :: l → y ≤ foldr Z.max x l)
    as [Hin Hub].
  { induction l as [|y l [IHin IHub]]; simpl.
    - split; [left|]. intros y [->|?%elem_of_nil]%elem_of_cons; [lia|done].
    - split.
      + destruct (Z.max_spec y (foldr Z.max x l)) as [[_ ->]|[_ ->]].
        * apply elem_of_cons in IHin as [->|?]; [left | by do 2 right].
        * right; left.
      + intros z Hz. assert (z = y ∨ z ∈ x :: l) as [->|Hz'].
        { apply elem_of_cons in Hz as [->|Hz]; [right; left|].
          apply elem_of_cons in Hz as [->|Hz]; [by left | by do 2 right]. }
        * lia.
        * specialize (IHub z Hz'). lia. }
  split.
  - by intros [= <-].
  - intros [Hm Hle]. f_equal. specialize (Hle _ Hin). specialize (Hub _ Hm). lia.
Qed.

(** ** Rounding and percentages *)

Lemma round2_bounds (x : Q) : (0 <= x <= 100)%Q → (0 <= round2 x <= 100)%Q.
Proof.
  intros [H0 H100]. unfold round2.
  apply Qle_bool_iff in H0 as Hb. rewrite Hb, Qred_correct.
  assert (0 ≤ Qfloor (x * 100 + (1 # 2))) as Hlo.
  { change 0 with (Qfloor 0). apply Qfloor_resp_le. lra. }
  assert (Qfloor (x * 100 + (1 # 2)) ≤ 10000) as Hhi.
  { change 10000 with (Qfloor (20001 # 2)). apply Qfloor_resp_le. lra. }
  revert Hlo Hhi. generalize (Qfloor (x * 100 + (1 # 2))). intros n Hlo Hhi.
  unfold Qle. simpl. lia.
Qed.

Lemma percentage_bounds (a b : nat) :
  (a ≤ b)%nat → (0 < b)%nat → (0 <= percentage a b <= 100)%Q.
Proof.
  intros Hab Hb. apply round2_bounds. unfold Q_of_nat.
  assert (0 < inject_Z (Z.of_nat b))%Q as Hb'.
  { change 0%Q with (inject_Z 0). rewrite <-Zlt_Qlt. lia. }
  assert (0 <= inject_Z (Z.of_nat a))%Q as Ha'.
  { change 0%Q with (inject_Z 0). rewrite <-Zle_Qle. lia. }
  assert (inject_Z (Z.of_nat a) <= inject_Z (Z.of_nat b))%Q as Hab'.
  { rewrite <-Zle_Qle. lia. }
  split.
  - apply Qle_shift_div_l; [done|]. lra.
  - apply Qle_shift_div_r; [done|]. lra.
Qed.

Lemma round2_proper (x y : Q) : (x == y)%Q → round2 x = round2 y.
Proof.
  intros Hxy. unfold round2.
  assert (Qle_bool 0 x = Qle_bool 0 y) as ->.
  { apply eq_true_iff_eq. rewrite !Qle_bool_iff. by rewrite Hxy. }
  destruct (Qle_bool 0 y); apply Qred_complete.
  - assert (Qfloor (x * 100 + (1 # 2)) = Qfloor (y * 100 + (1 # 2))) as ->;
      [|done].
    apply Qfloor_comp. by rewrite Hxy.
  - assert (Qfloor (- x * 100 + (1 # 2)) = Qfloor (- y * 100 + (1 # 2))) as ->;
      [|done].
    apply Qfloor_comp. by rewrite Hxy.
Qed.

Lemma percentage_zero (b : nat) : percentage 0 b = 0%Q.
Proof.
  unfold percentage. rewrite (round2_proper _ 0); [done|].
  unfold Qdiv. change (Q_of_nat 0) with 0%Q. ring.
Qed.

Lemma sum_flags_le_length (l : list nat) :
  Forall (λ x, (x ≤ 1)%nat) l → (sum_flags l ≤ length l)%nat.
Proof. induction 1; simpl; lia. Qed.

Lemma sum_flags_zero (l : list nat) :
  Forall (λ x, x = 0%nat) l → sum_flags l = 0%nat.
Proof. induction 1; simpl; lia. Qed.

(** ** The calendar and the rounding on known values *)

Example date_of_instant :
  DATE (midnight 2024 1 8 + 36000) = days_from_civil 2024 1 8
  ∧ strftime_Ym (DATE (midnight 2024 1 8 + 36000)) = (2024, 1)
  ∧ civil_from_days (days_from_civil 2024 12 31) = (2024, 12, 31)
  ∧ civil_from_days (days_from_civil 2024 2 29 + 1) = (2024, 3, 1)
  ∧ days_from_civil 1970 1 1 = 0.
Proof. vm_compute. done. Qed.

Example round2_values :
  percentage 1 3 = (3333 # 100)%Q ∧ percentage 2 3 = (6667 # 100)%Q
  ∧ percentage 1 2 = 50%Q ∧ percentage 1 8 = (25 # 2)%Q
  ∧ round2 (25 # 8) = (313 # 100)%Q ∧ round2 (- (25 # 8)) = (- 313 # 100)%Q.
Proof. vm_compute. done. Qed.

(** ** Retention *)

Lemma first_activity_rows (db : database) :
  first_activity db
  = (λ u, (u, first_date db u)) <$> remove_dups (e_user_id <$> events db).
Proof. unfold first_activity, group_by. by rewrite <-list_fmap_compose. Qed.

Lemma elem_of_first_activity (db : database) u fd :
  (u, fd) ∈ first_activity db
  ↔ u ∈ e_user_id <$> events db ∧ fd = first_date db u.
Proof.
  rewrite first_activity_rows, list_elem_of_fmap. split.
  - intros (u' & [= -> ->] & Hu). by rewrite elem_of_remove_dups in Hu.
  - intros [Hu ->]. exists u. by rewrite elem_of_remove_dups.
Qed.

Lemma retention_check_flag (db : database) (days : Z) r :
  r ∈ retention_check db days → (r.2 ≤ 1)%nat.
Proof.
  unfold retention_check. intros ([f [e|]] & -> & _)%list_elem_of_fmap; simpl; lia.
Qed.

Lemma elem_of_calculate_retention (db : database) (days : Z) r :
  r ∈ calculate_retention db days
  ↔ ∃ c g, (c, g) ∈ group_by (λ r, strftime_Ym <$> r.1.2)
                      (retention_check db days)
           ∧ r = mkRetention c (length g) (sum_flags ((λ r, r.2) <$> g))
                   (percentage (sum_flags ((λ r, r.2) <$> g)) (length g)).
Proof.
  unfold calculate_retention. rewrite list_elem_of_fmap. split.
  - intros ([c g] & -> & H). by exists c, g.
  - intros (c & g & H & ->). by exists (c, g).
Qed.

(** C8: in every row [calculate_retention] returns, [retained_users] is at
    most [total_users] and [retention_rate] lies between 0 and 100; over an
    [events] table without rows the result has no row. *)
Theorem retention_rows_bounded (db : database) (days : Z) :
  Forall (λ r, (r_retained_users r ≤ r_total_users r)%nat
               ∧ (0 <= r_retention_rate r <= 100)%Q)
    (calculate_retention db days)
  ∧ calculate_retention (mkDatabase (users db) []) days = [].
Proof.
  split; [|done]. apply Forall_forall. intros r Hr.
  apply elem_of_calculate_retention in Hr as (c & g & Hg & ->). simpl.
  assert (sum_flags ((λ r, r.2) <$> g) ≤ length g)%nat as Hle.
  { rewrite <-(length_fmap (λ r, r.2) g). apply sum_flags_le_length.
    apply Forall_fmap, Forall_forall. intros x Hx. simpl.
    apply elem_of_group_by in Hg as [_ ->].
    apply list_elem_of_filter in Hx as [_ Hx].
    by apply retention_check_flag in Hx. }
  split; [done|]. apply percentage_bounds; [done|].
  by apply group_by_inhabited in Hg.
Qed.

Lemma retention_check_negative (db : database) (days : Z) :
  days < 0 →
  retention_check db days = (λ f, (f.1, f.2, 0%nat)) <$> first_activity db.
Proof.
  intros Hneg. unfold retention_check.
  rewrite left_join_no_partner, <-list_fmap_compose; [done|].
  intros [u fd] e _. simpl.
  assert (date_plus_days fd days = None) as ->.
  { destruct fd; simpl; [|done]. by rewrite (proj2 (Z.ltb_lt _ _) Hneg). }
  rewrite (bool_decide_eq_false_2 (Some _ = None)) by done.
  rewrite andb_false_r. intros [].
Qed.

(** An event of a user brings a cohort row for the month of that user's
    first date. *)
Lemma retention_cohort_of_event (db : database) (days : Z) (e : Event) :
  e ∈ events db →
  ∃ r, r ∈ calculate_retention db days
       ∧ r_cohort r = strftime_Ym <$> first_date db (e_user_id e)
       ∧ (1 ≤ r_total_users r)%nat.
Proof.
  intros He.
  assert ((e_user_id e, first_date db (e_user_id e)) ∈ first_activity db) as Hf.
  { apply elem_of_first_activity. split; [|done]. by apply list_elem_of_fmap_2. }
  eapply left_join_covers in Hf as [oe Hj].
  set (row := (e_user_id e, first_date db (e_user_id e),
               match oe with Some _ => 1%nat | None => 0%nat end)).
  assert (row ∈ retention_check db days) as Hrow.
  { unfold retention_check. apply list_elem_of_fmap. eexists. split; [|exact Hj].
    done. }
  set (c := strftime_Ym <$> first_date db (e_user_id e)).
  set (g := filter (λ r : string * option Z * nat, strftime_Ym <$> r.1.2 = c)
              (retention_check db days)).
  assert ((c, g) ∈ group_by (λ r : string * option Z * nat, strftime_Ym <$> r.1.2)
                     (retention_check db days)) as Hg.
  { apply elem_of_group_by. split; [|done].
    apply list_elem_of_fmap. by exists row. }
  eexists. split; [apply elem_of_calculate_retention; eauto|].
  split; [done|]. simpl. apply group_by_inhabited in Hg. lia.
Qed.

Lemma retention_negative_rows (db : database) (days : Z) :
  days < 0 →
  Forall (λ r, r_retained_users r = 0%nat ∧ r_retention_rate r = 0%Q)
    (calculate_retention db days).
Proof.
  intros Hneg. apply Forall_forall. intros r Hr.
  apply elem_of_calculate_retention in Hr as (c & g & Hg & ->). simpl.
  assert (sum_flags ((λ r, r.2) <$> g) = 0%nat) as ->.
  { apply sum_flags_zero, Forall_fmap, Forall_forall. intros x Hx. simpl.
    apply elem_of_group_by in Hg as [_ ->].
    apply list_elem_of_filter in Hx as [_ Hx].
    rewrite retention_check_negative in Hx by done.
    by apply list_elem_of_fmap in Hx as (f & -> & _). }
  by rewrite percentage_zero.
Qed.

(** The example of the specification, on the code. *)
Example retention_week_later :
  calculate_retention db_week_later 7 = [mkRetention (Some (2024, 1)) 2 1 50].
Proof. vm_compute. done. Qed.

(** C1: [total_users] is [COUNT( * )] over the rows of the left join, and a
    user has one row for every event on the day [first_date + days].  With
    two users in the cohort, one of them back twice on the eighth day, the
    row reads 3 users, 2 retained, 66.67, where the cohort has 2 users of
    which 1 came back. *)
Theorem retention_counts_join_rows :
  calculate_retention db_two_returns 7
  = [mkRetention (Some (2024, 1)) 3 2 (6667 # 100)]
  ∧ first_activity db_two_returns
    = [("u1", Some (days_from_civil 2024 1 1));
       ("u2", Some (days_from_civil 2024 1 1))]
  ∧ filter (λ u, days_from_civil 2024 1 8 ∈ event_date <$> events_of db_two_returns u)
      ["u1"; "u2"] = ["u1"].
Proof. vm_compute. done. Qed.

(** ** Active users *)

Lemma dau_table_rows (db : database) :
  dau_table db
  = (λ d, mkDau d (count_distinct (users_on db d)) (strftime_Ym d))
      <$> merge_sort Z.le (remove_dups (event_date <$> events db)).
Proof.
  unfold dau_table, group_by.
  rewrite (order_by_tabulate Z.le), <-list_fmap_compose. done.
Qed.

Lemma elem_of_dau_table (db : database) (r : dau_row) :
  r ∈ dau_table db
  ↔ ∃ e, e ∈ events db
       ∧ r = mkDau (event_date e) (count_distinct (users_on db (event_date e)))
               (event_month e).
Proof.
  rewrite dau_table_rows, list_elem_of_fmap. split.
  - intros (d & -> & Hd).
    rewrite merge_sort_Permutation, elem_of_remove_dups in Hd.
    apply list_elem_of_fmap in Hd as (e & -> & He). by exists e.
  - intros (e & He & ->). exists (event_date e). split; [done|].
    rewrite merge_sort_Permutation, elem_of_remove_dups.
    by apply list_elem_of_fmap_2.
Qed.

Lemma dau_months (db : database) (m : year_month) :
  m ∈ d_month <$> dau_table db ↔ m ∈ event_month <$> events db.
Proof.
  rewrite !list_elem_of_fmap. split.
  - intros (r & -> & Hr). apply elem_of_dau_table in Hr as (e & He & ->).
    by exists e.
  - intros (e & -> & He). eexists. split; [|apply elem_of_dau_table; eauto].
    done.
Qed.

(** The loop of [calculate_dau_mau] asks its question once for every month
    of the events, months ascending. *)
Lemma mau_table_rows (db : database) :
  mau_table db
  = (λ m, mkMau m (count_distinct (users_in db m)))
      <$> merge_sort year_month_le (remove_dups (event_month <$> events db)).
Proof.
  unfold mau_table. unfold group_by at 1.
  rewrite (order_by_tabulate year_month_le), <-list_fmap_compose.
  rewrite (sorted_keys_unique year_month_le _ (event_month <$> events db))
    by apply dau_months.
  apply list_fmap_ext. intros _ m Hm%list_elem_of_lookup_2. simpl.
  rewrite merge_sort_Permutation, elem_of_remove_dups in Hm.
  apply dau_months, list_elem_of_fmap in Hm as (r & -> & Hr).
  assert (r ∈ filter (λ r', d_month r' = d_month r) (dau_table db)) as Hin
    by (by apply list_elem_of_filter).
  destruct (filter _ (dau_table db)); [by apply elem_of_nil in Hin | done].
Qed.

Lemma load_metrics_mau_rows (db : database) :
  load_metrics_mau db
  = (λ m, mkMau m (count_distinct (users_in db m)))
      <$> merge_sort year_month_le (remove_dups (event_month <$> events db)).
Proof.
  unfold load_metrics_mau, group_by.
  rewrite (order_by_tabulate year_month_le), <-list_fmap_compose. done.
Qed.

Lemma elem_of_mau_table (db : database) (r : mau_row) :
  r ∈ mau_table db
  ↔ ∃ e, e ∈ events db
       ∧ r = mkMau (event_month e) (count_distinct (users_in db (event_month e))).
Proof.
  rewrite mau_table_rows, list_elem_of_fmap. split.
  - intros (m & -> & Hm).
    rewrite merge_sort_Permutation, elem_of_remove_dups in Hm.
    apply list_elem_of_fmap in Hm as (e & -> & He). by exists e.
  - intros (e & He & ->). exists (event_month e). split; [done|].
    rewrite merge_sort_Permutation, elem_of_remove_dups.
    by apply list_elem_of_fmap_2.
Qed.

(** C7: in the two tables [calculate_dau_mau] returns, every row of the
    daily table has a row of the monthly table for the calendar month of its
    date; that row counts the distinct users of the whole month, and the
    daily count is at most that monthly count. *)
Theorem dau_at_most_mau_of_its_month (db : database) (r : dau_row) :
  r ∈ (calculate_dau_mau db).1 →
  ∃ r', r' ∈ (calculate_dau_mau db).2
        ∧ m_month r' = strftime_Ym (d_date r)
        ∧ m_mau r' = count_distinct (users_in db (m_month r'))
        ∧ (d_dau r ≤ m_mau r')%nat.
Proof.
  simpl. intros (e & He & ->)%elem_of_dau_table.
  exists (mkMau (event_month e) (count_distinct (users_in db (event_month e)))).
  split; [apply elem_of_mau_table; eauto|]. simpl. repeat split.
  apply count_distinct_mono. intros u. unfold users_on, users_in.
  rewrite !list_elem_of_fmap. intros (e' & -> & He'). exists e'.
  split; [done|]. apply list_elem_of_filter in He' as [Hd He'].
  apply list_elem_of_filter. split; [|done].
  unfold event_month. by rewrite Hd.
Qed.

Lemma dau_at_most_mau_of_its_month_witness :
  ∃ r', r' ∈ (calculate_dau_mau db_two_months).2
        ∧ m_month r' = (2024, 1)
        ∧ m_mau r' = count_distinct (users_in db_two_months (m_month r'))
        ∧ (2 ≤ m_mau r')%nat.
Proof.
  apply (dau_at_most_mau_of_its_month db_two_months
           (mkDau (days_from_civil 2024 1 1) 2 (2024, 1))).
  vm_compute. left.
Defined.

(** C9: the monthly table [calculate_dau_mau] builds with one query per
    month is the table of the single [GROUP BY month ORDER BY month] query
    of [load_metrics], row for row; each row counts the distinct users that
    have an event in its month. *)
Theorem mau_loop_is_single_group_by (db : database) :
  (calculate_dau_mau db).2 = load_metrics_mau db
  ∧ Forall (λ r, m_mau r = count_distinct (users_in db (m_month r)))
      (load_metrics_mau db).
Proof.
  simpl. rewrite mau_table_rows, load_metrics_mau_rows. split; [done|].
  apply Forall_fmap, Forall_forall. done.
Qed.

(** ** Churn *)

Lemma user_last_activity_rows (db : database) :
  user_last_activity db
  = last_activity_row db <$> remove_dups (e_user_id <$> events db).
Proof. unfold user_last_activity, group_by. by rewrite <-list_fmap_compose. Qed.

(** The join of [calculate_churn]: one row for every user that has events. *)
Lemma churn_join_rows (db : database) :
  inner_join (λ u l, bool_decide (u_user_id u = l.1.1))
    (users db) (user_last_activity db)
  = churn_join_row db <$> filter (has_events db) (users db).
Proof.
  unfold inner_join. rewrite user_last_activity_rows.
  induction (users db) as [|u us IH]; [done|].
  rewrite bind_cons, filter_cons, IH.
  rewrite (filter_keyed _ (λ v : string * option Z * option Z, v.1.1));
    [|done|apply NoDup_remove_dups].
  unfold has_events at 2.
  destruct (decide (u_user_id u ∈ remove_dups (e_user_id <$> events db)))
    as [Hin|Hout]; rewrite elem_of_remove_dups in *.
  - by rewrite decide_True.
  - by rewrite decide_False.
Qed.

Lemma churned_flag_is_churned (db : database) (n : Z) (u : User) :
  churned_flag n (churn_join_row db u).2.2
  = if is_churned churn_reference_date n db u then 1%nat else 0%nat.
Proof.
  unfold churned_flag, is_churned. simpl.
  destruct (days_inactive _ _ _) as [d|]; [|done].
  destruct (Z.ltb_spec n d).
  - by rewrite bool_decide_eq_true_2.
  - rewrite bool_decide_eq_false_2; [done | lia].
Qed.

Lemma churned_of_group (db : database) (n : Z) (us : list User) :
  sum_flags ((λ r, churned_flag n r.2.2) <$> (churn_join_row db <$> us))
  = length (filter (is_churned churn_reference_date n db) us).
Proof.
  rewrite <-list_fmap_compose, <-sum_flags_filter. f_equal.
  apply list_fmap_ext. intros _ u _. apply churned_flag_is_churned.
Qed.

(** [calculate_churn] computes the table of the specification at the date
    written in its query. *)
Lemma calculate_churn_rows (db : database) (n : Z) :
  calculate_churn db n = spec_churn_by_plan churn_reference_date db n.
Proof.
  unfold calculate_churn, spec_churn_by_plan, group_by.
  rewrite churn_join_rows, <-!list_fmap_compose.
  apply list_fmap_ext. intros _ p _. simpl.
  rewrite (filter_fmap_comm _ (λ r : User * (string * option Z * option Z),
                                 u_plan r.1 = p)).
  rewrite churned_of_group, length_fmap. done.
Qed.

(** The table depends on the snapshot through its qualifying users and
    through who of them is churned. *)
Lemma spec_churn_congr (as_of : date) (db db' : database) (n : Z) :
  filter (has_events db) (users db) = filter (has_events db') (users db') →
  (∀ u, u ∈ filter (has_events db) (users db) →
        is_churned as_of n db u = is_churned as_of n db' u) →
  spec_churn_by_plan as_of db n = spec_churn_by_plan as_of db' n.
Proof.
  intros Hq Hc. unfold spec_churn_by_plan. rewrite <-Hq.
  apply list_fmap_ext. intros _ p _. simpl.
  assert (filter (is_churned as_of n db)
            (filter (λ u, u_plan u = p) (filter (has_events db) (users db)))
          = filter (is_churned as_of n db')
              (filter (λ u, u_plan u = p) (filter (has_events db) (users db))))
    as ->; [|done].
  apply filter_ext_in. intros u [_ Hu]%list_elem_of_filter.
  by rewrite (Hc u Hu).
Qed.

(** A user without events is counted in no row of [calculate_churn]. *)
Lemma churn_without_idle_user (db : database) (uid : string) (n : Z) :
  uid ∉ e_user_id <$> events db →
  calculate_churn db n = calculate_churn (without_user db uid) n.
Proof.
  intros Hidle. rewrite !calculate_churn_rows. apply spec_churn_congr; [|done].
  simpl. rewrite list_filter_filter. apply list_filter_iff. intros u.
  unfold has_events. simpl. split; [|tauto].
  intros Hu. split; [done|]. by intros <-.
Qed.


(** Who counts as churned, spelled out: the latest event date lies more than
    [n] days before the reference date. *)
Lemma is_churned_spec (as_of : date) (n : Z) (db : database) (u : User) :
  is_churned as_of n db u
  ↔ ∃ last, last ∈ event_date <$> events_of db (u_user_id u)
            ∧ (∀ d, d ∈ event_date <$> events_of db (u_user_id u) → d ≤ last)
            ∧ n < as_of - last.
Proof.
  unfold is_churned, days_inactive, last_activity_date.
  destruct (sql_max _) as [m|] eqn:Hmax; simpl.
  - apply sql_max_spec in Hmax as [Hin Hub]. rewrite bool_decide_spec. split.
    + intros Hn. by exists m.
    + intros (last & Hl & Hlub & Hn).
      specialize (Hub _ Hl). specialize (Hlub _ Hin). lia.
  - split; [done|]. intros (last & Hl & Hlub & _).
    assert (sql_max (event_date <$> events_of db (u_user_id u)) = Some last)
      as Hs by (by apply sql_max_spec).
    congruence.
Qed.

Lemma elem_of_spec_churn (as_of : date) (db : database) (n : Z) (r : churn_row) :
  r ∈ spec_churn_by_plan as_of db n
  ↔ ∃ u, u ∈ users db ∧ has_events db u
         ∧ let of_plan := filter (λ u', u_plan u' = u_plan u)
                            (filter (has_events db) (users db)) in
           let gone := filter (is_churned as_of n db) of_plan in
           r = mkChurn (u_plan u) (length of_plan) (length gone)
                 (percentage (length gone) (length of_plan)).
Proof.
  unfold spec_churn_by_plan. rewrite list_elem_of_fmap. split.
  - intros (p & -> & Hp). rewrite elem_of_remove_dups in Hp.
    apply list_elem_of_fmap in Hp as (u & -> & [Hev Hu]%list_elem_of_filter).
    by exists u.
  - intros (u & Hu & Hev & ->). exists (u_plan u). split; [done|].
    rewrite elem_of_remove_dups. apply list_elem_of_fmap_2.
    by apply list_elem_of_filter.
Qed.

(** C2 (amended): [calculate_churn] counts exactly the users that have an
    event.  A row stands for a plan with at least one such user;
    [total_users] is the number of users of the plan that have an event,
    [churned] the number of those whose latest event date lies more than
    [inactive_days] days before 2024-12-31, the reference date, and
    [churn_rate] is [100 * churned / total_users] rounded to 2 decimals.
    Every user with an event is in the row of its plan.  For the two users
    of planA last active on 2024-11-01 and 2024-01-01 and the threshold 30,
    the row reads [total_users = 2], [churned = 2], [churn_rate = 100.0]:
    the first user has been inactive for 60 days, the second for 365. *)
Theorem churn_rows_count_users_with_events (db : database) (n : Z) :
  Forall (λ r,
      let of_plan := filter (λ u, u_plan u = c_plan r)
                       (filter (has_events db) (users db)) in
      (0 < length of_plan)%nat
      ∧ c_total_users r = length of_plan
      ∧ c_churned r
        = length (filter (is_churned churn_reference_date n db) of_plan)
      ∧ c_churn_rate r = percentage (c_churned r) (c_total_users r))
    (calculate_churn db n)
  ∧ (∀ u, u ∈ users db → has_events db u →
          ∃ r, r ∈ calculate_churn db n ∧ c_plan r = u_plan u)
  ∧ (∀ u, is_churned churn_reference_date n db u
          ↔ ∃ last, last ∈ event_date <$> events_of db (u_user_id u)
               ∧ (∀ d, d ∈ event_date <$> events_of db (u_user_id u) → d ≤ last)
               ∧ n < days_from_civil 2024 12 31 - last)
  ∧ calculate_churn db_churn_example 30 = [mkChurn (Some "planA") 2 2 100]
  ∧ days_inactive churn_reference_date db_churn_example <$> ["u1"; "u2"]
    = [Some 60; Some 365].
Proof.
  rewrite calculate_churn_rows. repeat split.
  - apply Forall_forall. intros r (u & Hu & Hev & ->)%elem_of_spec_churn.
    simpl. repeat split.
    assert (u ∈ filter (λ u', u_plan u' = u_plan u)
                  (filter (has_events db) (users db))) as Hin
      by (by rewrite !list_elem_of_filter).
    destruct (filter _ (filter _ _)); [by apply elem_of_nil in Hin | simpl; lia].
  - intros u Hu Hev. eexists. split; [apply elem_of_spec_churn; eauto|]. done.
  - by intros ?%is_churned_spec.
  - intros H. by apply is_churned_spec.
Qed.

Lemma churn_rows_count_users_with_events_witness :
  ∃ r, r ∈ calculate_churn db_churn_example 30 ∧ c_plan r = Some "planA".
Proof.
  destruct (churn_rows_count_users_with_events db_churn_example 30)
    as (_ & Hrow & _).
  apply (Hrow (user_on_plan "u2" "planA")).
  - vm_compute. right. left.
  - vm_compute. do 2 right. left.
Defined.

(** C2, as stated: on the example, the row of planA does not read
    [churned = 1], [churn_rate = 50.0]. *)
Lemma churn_example_is_not_one_of_two :
  calculate_churn db_churn_example 30 = [mkChurn (Some "planA") 2 2 100]
  ∧ mkChurn (Some "planA") 2 1 50 ∉ calculate_churn db_churn_example 30.
Proof.
  assert (calculate_churn db_churn_example 30 = [mkChurn (Some "planA") 2 2 100])
    as Heq by (vm_compute; done).
  split; [done|]. rewrite Heq. by intros [=]%list_elem_of_singleton.
Qed.

(** C3 (amended): the reference date of the churn computation is no
    parameter of [calculate_churn] and is not read from the events: it is the
    date 2024-12-31 written in the query.  For every snapshot and threshold
    the result is the churn-by-plan table of the specification at that
    date. *)
Theorem churn_reference_date_is_fixed (db : database) (n : Z) :
  calculate_churn db n = spec_churn_by_plan (days_from_civil 2024 12 31) db n.
Proof. apply calculate_churn_rows. Qed.

(** C3, as stated: with the latest event date as reference date, the default
    of the specification, the example has one churned user of two; the code
    reports two. *)
Lemma churn_ignores_latest_event_date :
  max_event_date db_churn_example = Some (days_from_civil 2024 11 1)
  ∧ spec_churn_by_plan (days_from_civil 2024 11 1) db_churn_example 30
    = [mkChurn (Some "planA") 2 1 50]
  ∧ calculate_churn db_churn_example 30
    ≠ spec_churn_by_plan (days_from_civil 2024 11 1) db_churn_example 30.
Proof.
  split; [by vm_compute|].
  assert (spec_churn_by_plan (days_from_civil 2024 11 1) db_churn_example 30
          = [mkChurn (Some "planA") 2 1 50]) as -> by (vm_compute; done).
  split; [done|].
  assert (calculate_churn db_churn_example 30 = [mkChurn (Some "planA") 2 2 100])
    as -> by (vm_compute; done).
  done.
Qed.

(** ** Parameters below zero *)

(** C4 (amended): no engine function looks at its parameter before it runs
    its query, and none raises for a negative one.  For [days < 0]
    [calculate_retention] returns its table, with [retained_users = 0] and
    [retention_rate = 0] in every cohort; for [inactive_days < 0]
    [calculate_churn] returns the churn-by-plan table for that threshold. *)
Theorem negative_parameter_returns_a_table (db : database) (n : Z) :
  n < 0 →
  (call_calculate_retention db n = Returned (calculate_retention db n)
   ∧ Forall (λ r, r_retained_users r = 0%nat ∧ r_retention_rate r = 0%Q)
       (calculate_retention db n))
  ∧ call_calculate_churn db n
    = Returned (spec_churn_by_plan churn_reference_date db n).
Proof.
  intros Hneg. repeat split.
  - by apply retention_negative_rows.
  - unfold call_calculate_churn. by rewrite calculate_churn_rows.
Qed.

Lemma negative_parameter_returns_a_table_witness :
  (call_calculate_retention db_week_later (-7)
   = Returned (calculate_retention db_week_later (-7))
   ∧ Forall (λ r, r_retained_users r = 0%nat ∧ r_retention_rate r = 0%Q)
       (calculate_retention db_week_later (-7)))
  ∧ call_calculate_churn db_week_later (-7)
    = Returned (spec_churn_by_plan churn_reference_date db_week_later (-7)).
Proof. apply (negative_parameter_returns_a_table db_week_later (-7)). lia. Defined.

(** C4, as stated: with [days = -7] and with [inactive_days = -7] the calls
    return tables; they raise no [InvalidParameter]. *)
Lemma negative_parameter_is_not_refused :
  call_calculate_retention db_week_later (-7)
  = Returned [mkRetention (Some (2024, 1)) 2 0 0]
  ∧ call_calculate_churn db_churn_example (-7)
    = Returned [mkChurn (Some "planA") 2 2 100]
  ∧ call_calculate_retention db_week_later (-7)
    ≠ Raised (InvalidParameter "days" (-7))
  ∧ call_calculate_churn db_churn_example (-7)
    ≠ Raised (InvalidParameter "inactive_days" (-7)).
Proof. repeat split; try (vm_compute; done). Qed.

(** ** Order of feature adoption *)

(** C5 (amended): the rows of [feature_adoption] are the feature groups in
    non-increasing [total_uses].  The query sorts on that key alone: it
    names no second key, and the order of rows of equal [total_uses] is not
    one by feature name. *)
Theorem feature_adoption_sorted_by_total_uses (db : database) :
  StronglySorted (λ a b, (f_total_uses b ≤ f_total_uses a)%nat)
    (feature_adoption db)
  ∧ feature_adoption db ≡ₚ feature_groups db
  ∧ feature_adoption_allows db (feature_adoption db).
Proof.
  assert (Transitive (λ a b : feature_row, flip le (f_total_uses a) (f_total_uses b)))
    as HT by (intros x y z; unfold flip; lia).
  assert (Total (λ a b : feature_row, flip le (f_total_uses a) (f_total_uses b)))
    as HTot by (intros x y; unfold flip; lia).
  assert (feature_adoption db ≡ₚ feature_groups db) as Hperm
    by apply merge_sort_Permutation.
  assert (Sorted (λ a b, (f_total_uses b ≤ f_total_uses a)%nat)
            (feature_adoption db)) as Hsorted
    by (by apply Sorted_merge_sort).
  split; [|done].
  apply Sorted_StronglySorted; [|done]. intros x y z. lia.
Qed.

(** C5, as stated: two features used once each come out as "b", "a". *)
Lemma feature_adoption_tie_not_by_name :
  f_feature <$> feature_adoption db_feature_tie = [Some "b"; Some "a"]
  ∧ f_total_uses <$> feature_adoption db_feature_tie = [1; 1]%nat
  ∧ ¬ StronglySorted spec_adoption_order (feature_adoption db_feature_tie)
  ∧ feature_adoption_allows db_feature_tie
      (reverse (feature_adoption db_feature_tie)).
Proof.
  split; [by vm_compute|]. split; [by vm_compute|]. split; last first.
  { split.
    - rewrite reverse_Permutation. apply merge_sort_Permutation.
    - vm_compute. repeat constructor. }
  intros Hs. apply StronglySorted_cons in Hs as [Hhd _].
  remember (feature_adoption db_feature_tie) as out eqn:Hout.
  vm_compute in Hout. subst out.
  apply Forall_cons in Hhd as [[Hlt|[_ Hname]] _].
  - vm_compute in Hlt. lia.
  - vm_compute in Hname. discriminate.
Qed.

(** ** Users without events, events without users *)

Lemma segment_of_idle_user (db : database) (u : User) :
  u ∈ users db → ¬ has_events db u →
  mkSegment (u_user_id u) (u_plan u) (u_country u) 0 0 0 None Low
    ∈ user_segmentation db.
Proof.
  intros Hu Hidle. unfold user_segmentation.
  set (joined := left_join _ (users db) (events db)).
  set (key := λ r : User * option Event,
                (u_user_id r.1, u_plan r.1, u_country r.1)).
  set (k := (u_user_id u, u_plan u, u_country u)).
  assert ((u, None) ∈ joined) as Hrow.
  { apply elem_of_left_join. split; [done|]. intros e He Hon.
    apply bool_decide_unpack in Hon. apply Hidle. unfold has_events.
    rewrite Hon. by apply list_elem_of_fmap_2. }
  assert ((k, filter (λ r, key r = k) joined) ∈ group_by key joined) as Hg.
  { apply elem_of_group_by. split; [|done].
    apply list_elem_of_fmap. by exists (u, None). }
  assert (omap snd (filter (λ r, key r = k) joined) = []) as Hno.
  { apply omap_nothing, Forall_forall.
    intros [u' [e|]] [Hk Hin]%list_elem_of_filter; [|done]. exfalso.
    apply elem_of_left_join in Hin as (_ & He & Hon).
    apply bool_decide_unpack in Hon. apply Hidle. unfold has_events.
    unfold key, k in Hk. simpl in Hk.
    assert (u_user_id u = e_user_id e) as -> by congruence.
    by apply list_elem_of_fmap_2. }
  apply list_elem_of_fmap. eexists. split; [|exact Hg].
  simpl. by rewrite Hno.
Qed.

(** C6 (amended): a user of [users] without events has a row in
    [user_segmentation] with [total_events = 0], [active_days = 0],
    [features_used = 0], [engagement_level = 'Low'] and with
    [avg_session_duration] NULL, the average of no value; and
    [calculate_churn] counts that user in no row: its table is the one of
    the snapshot without the user. *)
Theorem idle_user_segmented_not_churned (db : database) (u : User) (n : Z) :
  u ∈ users db → ¬ has_events db u →
  (∃ r, r ∈ user_segmentation db
        ∧ s_user_id r = u_user_id u
        ∧ s_plan r = u_plan u
        ∧ s_country r = u_country u
        ∧ s_total_events r = 0%nat
        ∧ s_active_days r = 0%nat
        ∧ s_features_used r = 0%nat
        ∧ s_avg_session_duration r = None
        ∧ s_engagement_level r = Low)
  ∧ calculate_churn db n = calculate_churn (without_user db (u_user_id u)) n.
Proof.
  intros Hu Hidle. split.
  - eexists. split; [by apply segment_of_idle_user|]. done.
  - by apply churn_without_idle_user.
Qed.

Lemma idle_user_segmented_not_churned_witness :
  (∃ r, r ∈ user_segmentation db_idle_user
        ∧ s_user_id r = "u9"
        ∧ s_plan r = Some "Pro"
        ∧ s_country r = None
        ∧ s_total_events r = 0%nat
        ∧ s_active_days r = 0%nat
        ∧ s_features_used r = 0%nat
        ∧ s_avg_session_duration r = None
        ∧ s_engagement_level r = Low)
  ∧ calculate_churn db_idle_user 30
    = calculate_churn (without_user db_idle_user "u9") 30.
Proof.
  apply (idle_user_segmented_not_churned db_idle_user (user_on_plan "u9" "Pro") 30).
  - vm_compute. right. left.
  - vm_compute. intros H. inversion H as [|?? ? H']. inversion H'.
Defined.

(** C6, as stated: the row of the user without events has no
    [avg_session_duration] of 0; the column is NULL. *)
Lemma idle_user_average_is_null :
  ¬ ∃ r q, r ∈ user_segmentation db_idle_user
           ∧ s_user_id r = "u9"
           ∧ s_avg_session_duration r = Some q.
Proof.
  intros (r & q & Hr & Hid & Hq).
  remember (user_segmentation db_idle_user) as out eqn:Hout.
  vm_compute in Hout. subst out.
  apply elem_of_cons in Hr as [->|Hr]; [discriminate|].
  apply list_elem_of_singleton in Hr as ->. discriminate.
Qed.



(** ** Cleaning: [load_data] *)

Section drop_duplicates_facts.
Context {A K : Type} `{EqDecision K} (key : A → K).

Lemma elem_of_drop_duplicates_from (seen : list K) (rows : list A) (r : A) :
  r ∈ drop_duplicates_from key seen rows
  ↔ ∃ pre post, rows = pre ++ r :: post
                ∧ (key r ∉ seen) ∧ (key r ∉ key <$> pre).
Proof.
  revert seen. induction rows as [|x rows IH]; intros seen; simpl.
  { split; [by intros ?%elem_of_nil|]. by intros ([|??] & ? & ? & _). }
  destruct (decide (key x ∈ seen)) as [Hseen|Hnew].
  - rewrite IH. split.
    + intros (pre & post & -> & Hs & Hp). exists (x :: pre), post.
      split_and!; [done..|]. rewrite fmap_cons, not_elem_of_cons.
      split; [|done]. intros Heq. apply Hs. by rewrite Heq.
    + intros ([|y pre] & post & [= <- ->] & Hs & Hp); [done|].
      rewrite fmap_cons, not_elem_of_cons in Hp. destruct Hp.
      exists pre, post. done.
  - rewrite elem_of_cons, IH. split.
    + intros [->|(pre & post & -> & Hs & Hp)].
      * exists [], rows. split_and!; [done..|]. by intros ?%elem_of_nil.
      * rewrite not_elem_of_cons in Hs. destruct Hs.
        exists (x :: pre), post. split_and!; [done..|].
        by rewrite fmap_cons, not_elem_of_cons.
    + intros ([|y pre] & post & [= <- ->] & Hs & Hp); [by left|].
      rewrite fmap_cons, not_elem_of_cons in Hp. destruct Hp. right.
      exists pre, post. split_and!; [done| |done]. by rewrite not_elem_of_cons.
Qed.

Lemma drop_duplicates_from_NoDup (seen : list K) (rows : list A) :
  NoDup (key <$> drop_duplicates_from key seen rows).
Proof.
  revert seen. induction rows as [|x rows IH]; intros seen; simpl.
  { constructor. }
  destruct (decide (key x ∈ seen)); [done|]. csimpl. constructor; [|done].
  intros (r & Hk & Hr)%list_elem_of_fmap.
  apply elem_of_drop_duplicates_from in Hr as (_ & _ & _ & Hs & _).
  apply Hs. rewrite <-Hk. left.
Qed.

(** Where no key repeats nothing goes. *)
Lemma drop_duplicates_from_id (seen : list K) (rows : list A) :
  NoDup (key <$> rows) → (∀ r, r ∈ rows → key r ∉ seen) →
  drop_duplicates_from key seen rows = rows.
Proof.
  revert seen. induction rows as [|x rows IH]; intros seen Hnd Hs; [done|].
  simpl. rewrite fmap_cons in Hnd. apply NoDup_cons in Hnd as [Hx Hnd].
  rewrite decide_False by (apply Hs; left). f_equal. apply IH; [done|].
  intros r Hr. rewrite not_elem_of_cons. split; [|apply Hs; by right].
  intros Heq. apply Hx. rewrite <-Heq. by apply list_elem_of_fmap_2.
Qed.

(** A list has one first row of a key. *)
Lemma first_of_key_unique (pre pre' post post' : list A) (r r' : A) :
  pre ++ r :: post = pre' ++ r' :: post' → key r = key r' →
  key r ∉ key <$> pre → key r' ∉ key <$> pre' →
  pre = pre' ∧ r = r'.
Proof.
  revert pre'. induction pre as [|x pre IH]; intros [|x' pre'] Heq Hk Hp Hp';
    simplify_eq/=.
  - done.
  - exfalso. apply Hp'. rewrite <-Hk. left.
  - exfalso. apply Hp. rewrite Hk. left.
  - rewrite not_elem_of_cons in Hp, Hp'. destruct Hp, Hp'.
    destruct (IH pre') as [-> ->]; done.
Qed.
End drop_duplicates_facts.

Lemma omap_keys_NoDup {A B K} (clean : A → option B) (key : A → option K)
    (id : B → K) (l : list A) :
  (∀ r u, clean r = Some u → key r = Some (id u)) →
  NoDup (key <$> l) → NoDup (id <$> omap clean l).
Proof.
  intros Hkey. induction l as [|x l IH]; csimpl; [constructor|].
  intros [Hx Hnd]%NoDup_cons. destruct (clean x) as [u|] eqn:Hc; csimpl; [|auto].
  constructor; [|auto].
  intros (u' & Hid & (r & Hr & Hcr)%list_elem_of_omap)%list_elem_of_fmap.
  apply Hx. rewrite (Hkey _ _ Hc), Hid, <-(Hkey _ _ Hcr).
  by apply list_elem_of_fmap_2.
Qed.

Lemma clean_user_id (r : raw_user) (u : User) :
  clean_user r = Some u → ru_user_id r = Some (u_user_id u).
Proof.
  unfold clean_user. destruct (ru_user_id r), (ru_signup_date r); naive_solver.
Qed.

Lemma clean_event_id (r : raw_event) (e : Event) :
  clean_event r = Some e → re_event_id r = Some (e_event_id e).
Proof.
  unfold clean_event.
  destruct (re_event_id r), (re_user_id r), (re_timestamp r); naive_solver.
Qed.

(** X1: in the tables [load_data] writes no two users have the same
    [user_id] and no two events the same [event_id]. *)
Theorem load_data_ids_unique (csv_users : list raw_user)
    (csv_events : list raw_event) :
  NoDup (u_user_id <$> users (load_data csv_users csv_events))
  ∧ NoDup (e_event_id <$> events (load_data csv_users csv_events)).
Proof.
  split; simpl.
  - apply (omap_keys_NoDup _ ru_user_id); [apply clean_user_id|].
    apply drop_duplicates_from_NoDup.
  - apply (omap_keys_NoDup _ re_event_id); [apply clean_event_id|].
    apply drop_duplicates_from_NoDup.
Qed.

Lemma elem_of_load_data_users (csv_users : list raw_user)
    (csv_events : list raw_event) (u : User) :
  u ∈ users (load_data csv_users csv_events)
  ↔ ∃ pre r post, csv_users = pre ++ r :: post
                  ∧ (ru_user_id r ∉ ru_user_id <$> pre)
                  ∧ clean_user r = Some u.
Proof.
  simpl. rewrite list_elem_of_omap. unfold drop_duplicates. split.
  - intros (r & (pre & post & -> & _ & Hp)%elem_of_drop_duplicates_from & Hc).
    by exists pre, r, post.
  - intros (pre & r & post & -> & Hp & Hc). exists r. split; [|done].
    apply elem_of_drop_duplicates_from. exists pre, post.
    split_and!; [done| |done]. by intros ?%elem_of_nil.
Qed.

(** X2: a row of the frame [users] reaches the table exactly when it is the
    first row of its [user_id] and has a [user_id] and a [signup_date]; which
    row of a repeated id is complete plays no part.  So a user whose first
    row lacks the [signup_date] is not in the table, whatever rows follow. *)
Theorem load_data_keeps_first_rows (csv_users : list raw_user)
    (csv_events : list raw_event) :
  (∀ u, u ∈ users (load_data csv_users csv_events)
        ↔ ∃ pre r post, csv_users = pre ++ r :: post
                        ∧ (ru_user_id r ∉ ru_user_id <$> pre)
                        ∧ clean_user r = Some u)
  ∧ (∀ pre r post uid,
       csv_users = pre ++ r :: post →
       ru_user_id r = Some uid →
       Some uid ∉ ru_user_id <$> pre →
       ru_signup_date r = None →
       uid ∉ u_user_id <$> users (load_data csv_users csv_events)).
Proof.
  split; [apply elem_of_load_data_users|].
  intros pre r post uid Hcsv Hid Hpre Hna (u & -> & Hu)%list_elem_of_fmap.
  apply elem_of_load_data_users in Hu as (pre' & r' & post' & Hcsv' & Hpre' & Hc).
  apply clean_user_id in Hc as Hid'.
  rewrite Hcsv in Hcsv'.
  destruct (first_of_key_unique ru_user_id _ _ _ _ _ _ Hcsv') as [_ <-];
    [congruence | by rewrite Hid | done |].
  unfold clean_user in Hc. by rewrite Hid, Hna in Hc.
Qed.

Lemma load_data_keeps_first_rows_witness :
  "u2" ∉ u_user_id <$> users (load_data csv_users_sample csv_events_sample).
Proof.
  destruct (load_data_keeps_first_rows csv_users_sample csv_events_sample)
    as [_ Hlost].
  eapply (Hlost (take 2 csv_users_sample) _ (drop 3 csv_users_sample) "u2").
  - reflexivity.
  - reflexivity.
  - apply (bool_decide_unpack _). vm_compute. exact I.
  - reflexivity.
Defined.

Lemma omap_clean_frame {A B} (clean : A → option B) (frame : B → A)
    (l : list B) :
  (∀ x, clean (frame x) = Some x) → omap clean (frame <$> l) = l.
Proof.
  intros Hc. induction l as [|x l IH]; [done|]. csimpl. by rewrite Hc, IH.
Qed.

Lemma load_data_of_clean (db : database) :
  NoDup (u_user_id <$> users db) → NoDup (e_event_id <$> events db) →
  load_data (user_frame db) (event_frame db) = db.
Proof.
  intros Hu He. destruct db as [us es]. unfold load_data, drop_duplicates.
  simpl in *. f_equal.
  - rewrite drop_duplicates_from_id.
    + apply omap_clean_frame. by intros [].
    + unfold user_frame. simpl. rewrite <-list_fmap_compose.
      apply (NoDup_fmap_2 Some) in Hu. by rewrite <-list_fmap_compose in Hu.
    + intros r _. by intros ?%elem_of_nil.
  - rewrite drop_duplicates_from_id.
    + apply omap_clean_frame. by intros [].
    + unfold event_frame. simpl. rewrite <-list_fmap_compose.
      apply (NoDup_fmap_2 Some) in He. by rewrite <-list_fmap_compose in He.
    + intros r _. by intros ?%elem_of_nil.
Qed.

(** X3: [load_data] changes nothing in tables that are clean, and so loading
    what a load wrote gives the same tables again. *)
Theorem load_data_idempotent (csv_users : list raw_user)
    (csv_events : list raw_event) :
  let db := load_data csv_users csv_events in
  load_data (user_frame db) (event_frame db) = db.
Proof.
  simpl. apply load_data_of_clean; simpl.
  - apply (omap_keys_NoDup _ ru_user_id); [apply clean_user_id|].
    apply drop_duplicates_from_NoDup.
  - apply (omap_keys_NoDup _ re_event_id); [apply clean_event_id|].
    apply drop_duplicates_from_NoDup.
Qed.

(** ** Days and their months *)

#[global] Instance year_month_le_refl : Reflexive year_month_le.
Proof. intros [??]. unfold year_month_le. simpl. lia. Qed.

Lemma year_month_leb_le (a b : year_month) :
  year_month_leb a b = true ↔ year_month_le a b.
Proof.
  unfold year_month_leb, year_month_le.
  rewrite orb_true_iff, andb_true_iff, Z.ltb_lt, Z.eqb_eq, Z.leb_le. done.
Qed.

Lemma cycle_scan_spec (n : nat) (i : Z) (prev : year_month) :
  cycle_scan n i prev = true →
  ∀ j k, i ≤ j → j ≤ k → k < i + Z.of_nat n →
    month_of_era (cycle_month k) = true
    ∧ year_month_le prev (cycle_month j)
    ∧ year_month_le (cycle_month j) (cycle_month k).
Proof.
  revert i prev. induction n as [|n IH]; intros i prev; simpl; [lia|].
  destruct (month_of_era (cycle_month i)) eqn:Hok; simpl; [|done].
  destruct (year_month_leb prev (cycle_month i)) eqn:Hle; [|done].
  apply year_month_leb_le in Hle. intros Hscan j k Hij Hjk Hk.
  destruct (decide (k = i)) as [->|Hki].
  { assert (j = i) as -> by lia. done. }
  destruct (decide (j = i)) as [->|Hji].
  - destruct (IH _ _ Hscan (i + 1) k) as (? & ? & ?); [lia..|].
    split_and!; [done..|]. by etransitivity.
  - destruct (IH _ _ Hscan j k) as (? & ? & ?); [lia..|].
    split_and!; [done| |done]. by etransitivity.
Qed.

Lemma cycle_scanned :
  cycle_scan (Z.to_nat days_per_era) 0 (0, 3) = true.
Proof. vm_compute. reflexivity. Qed.

Lemma cycle_months (j k : Z) :
  0 ≤ j → j ≤ k → k < days_per_era →
  month_of_era (cycle_month k) = true
  ∧ year_month_le (cycle_month j) (cycle_month k).
Proof.
  intros Hj Hjk Hk.
  destruct (cycle_scan_spec _ _ _ cycle_scanned j k) as (? & _ & ?);
    [lia..| |done].
  rewrite Z2Nat.id by done. lia.
Qed.

Lemma civil_from_days_cycle (z : Z) :
  civil_from_days z
  = let '(y, m, d) := cycle_date ((z + 719468) mod days_per_era) in
    (y + 400 * ((z + 719468) / days_per_era), m, d).
Proof.
  unfold civil_from_days, cycle_date, days_per_era.
  rewrite (Z.mod_eq (z + 719468) 146097) by lia.
  replace (z + 719468 - (z + 719468) `div` 146097 * 146097)
    with (z + 719468 - 146097 * ((z + 719468) `div` 146097)) by lia.
  set (doe := z + 719468 - 146097 * _).
  set (yoe := (doe - doe / 1460 + doe / 36524 - doe / 146096) / 365).
  cbv zeta.
  set (doy := doe - (365 * yoe + yoe / 4 - yoe / 100)).
  set (mp := (5 * doy + 2) / 153).
  destruct ((if mp <? 10 then mp + 3 else mp - 9) <=? 2); f_equal; f_equal; lia.
Qed.

Lemma strftime_Ym_cycle (z : Z) :
  strftime_Ym z
  = ((cycle_month ((z + 719468) mod days_per_era)).1
       + 400 * ((z + 719468) / days_per_era),
     (cycle_month ((z + 719468) mod days_per_era)).2).
Proof.
  unfold strftime_Ym, cycle_month. rewrite civil_from_days_cycle.
  by destruct (cycle_date _) as [[??]?].
Qed.

(** A later day is in the same or in a later month. *)
Lemma strftime_Ym_mono (z1 z2 : Z) :
  z1 ≤ z2 → year_month_le (strftime_Ym z1) (strftime_Ym z2).
Proof.
  intros Hle. rewrite !strftime_Ym_cycle.
  set (a1 := z1 + 719468). set (a2 := z2 + 719468).
  assert (a1 ≤ a2) as Ha by (unfold a1, a2; lia).
  pose proof (Z.mod_pos_bound a1 days_per_era ltac:(done)) as Hb1.
  pose proof (Z.mod_pos_bound a2 days_per_era ltac:(done)) as Hb2.
  pose proof (Z.div_mod a1 days_per_era ltac:(done)) as Hd1.
  pose proof (Z.div_mod a2 days_per_era ltac:(done)) as Hd2.
  assert (a1 / days_per_era ≤ a2 / days_per_era) as He
    by (apply Z.div_le_mono; [done | lia]).
  destruct (cycle_months (a1 mod days_per_era) (a1 mod days_per_era))
    as [Hok1 _]; [lia..|].
  destruct (cycle_months (a2 mod days_per_era) (a2 mod days_per_era))
    as [Hok2 _]; [lia..|].
  destruct (decide (a1 / days_per_era = a2 / days_per_era)) as [Heq|Hne].
  - destruct (cycle_months (a1 mod days_per_era) (a2 mod days_per_era))
      as [_ Hm]; [lia..|].
    rewrite Heq. destruct (cycle_month _), (cycle_month _).
    unfold year_month_le in *. simpl in *. lia.
  - unfold month_of_era in *.
    destruct (cycle_month (a1 mod days_per_era)) as [y1 m1].
    destruct (cycle_month (a2 mod days_per_era)) as [y2 m2].
    unfold year_month_le. simpl in *.
    repeat match goal with
    | H : _ && _ = true |- _ => apply andb_prop in H as [H ?]
    | H : _ || _ = true |- _ => apply orb_prop in H as [H|H]
    | H : (_ <=? _) = true |- _ => apply Z.leb_le in H
    | H : (_ <? _) = true |- _ => apply Z.ltb_lt in H
    end; lia.
Qed.

(** Months are within 1 to 12. *)
Lemma strftime_Ym_month (z : Z) : 1 ≤ (strftime_Ym z).2 ≤ 12.
Proof.
  rewrite strftime_Ym_cycle.
  pose proof (Z.mod_pos_bound (z + 719468) days_per_era ltac:(done)) as Hb.
  destruct (cycle_months ((z + 719468) mod days_per_era)
              ((z + 719468) mod days_per_era)) as [Hok _]; [lia..|].
  revert Hok. generalize (cycle_month ((z + 719468) mod days_per_era)).
  intros [y m] Hok. unfold month_of_era in Hok. simpl in *.
  repeat match goal with
  | H : _ && _ = true |- _ => apply andb_prop in H as [H ?]
  | H : (_ <=? _) = true |- _ => apply Z.leb_le in H
  end; lia.
Qed.

(** ** Counting distinct values *)

Section count_distinct_more.
Context {A : Type} `{EqDecision A}.

Lemma count_distinct_le_length (l : list A) :
  (count_distinct l ≤ length l)%nat.
Proof.
  unfold count_distinct. apply submseteq_length, NoDup_submseteq.
  - apply NoDup_remove_dups.
  - intros x. by rewrite elem_of_remove_dups.
Qed.

Lemma count_distinct_pos (l : list A) (x : A) :
  x ∈ l → (1 ≤ count_distinct l)%nat.
Proof.
  intros Hx. unfold count_distinct. apply elem_of_remove_dups in Hx.
  destruct (remove_dups l); [by apply elem_of_nil in Hx | simpl; lia].
Qed.

Lemma count_distinct_app (l k : list A) :
  (count_distinct (l ++ k) ≤ count_distinct l + count_distinct k)%nat.
Proof.
  unfold count_distinct. rewrite <-length_app.
  apply submseteq_length, NoDup_submseteq; [apply NoDup_remove_dups|].
  intros x. rewrite elem_of_app, !elem_of_remove_dups, elem_of_app. done.
Qed.

(** Distinct values spread over several lists are at most the distinct
    values of each list, added up. *)
Lemma count_distinct_cover {B} (f : B → list A) (l : list A) (ds : list B) :
  (∀ x, x ∈ l → ∃ d, d ∈ ds ∧ x ∈ f d) →
  (count_distinct l ≤ sum_counts ((λ d, count_distinct (f d)) <$> ds))%nat.
Proof.
  intros Hcover.
  transitivity (count_distinct (ds ≫= f)).
  - apply count_distinct_mono. intros x Hx. apply list_elem_of_bind.
    destruct (Hcover x Hx) as (d & ? & ?). by exists d.
  - clear. induction ds as [|d ds IH]; [done|].
    rewrite bind_cons. csimpl. etransitivity; [apply count_distinct_app|]. lia.
Qed.
End count_distinct_more.

Lemma last_sorted_upper {A} (R : relation A) (l : list A) (m : A) :
  StronglySorted R l → last l = Some m → ∀ x, x ∈ l → x = m ∨ R x m.
Proof.
  induction 1 as [|y l Hl IH Hy]; [done|].
  intros Hlast x Hx. destruct l as [|z l].
  - simpl in Hlast. apply list_elem_of_singleton in Hx. left. congruence.
  - change (last (z :: l) = Some m) in Hlast.
    apply last_Some_elem_of in Hlast as Hm.
    apply elem_of_cons in Hx as [->|Hx]; [|by apply IH].
    right. rewrite Forall_forall in Hy. by apply Hy.
Qed.

Lemma sorted_NoDup_strict (l : list Z) :
  StronglySorted Z.le l → NoDup l → StronglySorted Z.lt l.
Proof.
  induction 1 as [|x l Hl IH Hx]; [constructor|].
  intros [Hnin Hnd]%NoDup_cons. constructor; [auto|].
  rewrite Forall_forall in *. intros y Hy. specialize (Hx y Hy).
  assert (x ≠ y) by (by intros ->). lia.
Qed.

(** The last day of a sorted table of days is [MAX] of the days. *)
Lemma last_sorted_days (l : list Z) :
  last (merge_sort Z.le (remove_dups l)) = sql_max l.
Proof.
  assert (StronglySorted Z.le (merge_sort Z.le (remove_dups l))) as Hs
    by apply (StronglySorted_merge_sort Z.le).
  assert (∀ x, x ∈ merge_sort Z.le (remove_dups l) ↔ x ∈ l) as Hmem.
  { intros x. by rewrite merge_sort_Permutation, elem_of_remove_dups. }
  destruct (last _) as [m|] eqn:Hlast.
  - symmetry. apply sql_max_spec. split.
    + by apply Hmem, last_Some_elem_of.
    + intros x Hx%Hmem.
      destruct (last_sorted_upper _ _ _ Hs Hlast x Hx) as [->|?]; lia.
  - apply last_None in Hlast. destruct l as [|x l]; [done|].
    assert (x ∈ merge_sort Z.le (remove_dups (x :: l))) as Hx
      by (apply Hmem; left).
    rewrite Hlast in Hx. by apply elem_of_nil in Hx.
Qed.

Lemma later_month_spec (a b : year_month) :
  (later_month a b = a ∨ later_month a b = b)
  ∧ year_month_le a (later_month a b) ∧ year_month_le b (later_month a b).
Proof.
  unfold later_month. destruct (decide (year_month_le a b)) as [Hle|Hnle].
  - split_and!; [by right | done | reflexivity].
  - split_and!; [by left | reflexivity |].
    by destruct (total year_month_le a b).
Qed.

Lemma sql_max_month_spec (l : list year_month) (m : year_month) :
  sql_max_month l = Some m ↔ m ∈ l ∧ ∀ x, x ∈ l → year_month_le x m.
Proof.
  destruct l as [|x l]; simpl.
  { split; [done|]. by intros [?%elem_of_nil _]. }
  assert (foldr later_month x l ∈ x :: l
          ∧ ∀ y, y ∈ x :: l → year_month_le y (foldr later_month x l))
    as [Hin Hub].
  { induction l as [|y l [IHin IHub]]; simpl.
    - split; [left|]. intros y [->|?%elem_of_nil]%elem_of_cons; [reflexivity|done].
    - destruct (later_month_spec y (foldr later_month x l)) as ([->| ->] & Hy & Hf).
      + split; [right; left|]. intros z Hz.
        assert (z = y ∨ z ∈ x :: l) as [->|Hz'].
        { apply elem_of_cons in Hz as [->|Hz]; [right; left|].
          apply elem_of_cons in Hz as [->|Hz]; [by left | by do 2 right]. }
        * reflexivity.
        * etransitivity; [by apply IHub | done].
      + split.
        { apply elem_of_cons in IHin as [Heq|?]; [rewrite Heq; left | by do 2 right]. }
        intros z Hz.
        assert (z = y ∨ z ∈ x :: l) as [->|Hz'].
        { apply elem_of_cons in Hz as [->|Hz]; [right; left|].
          apply elem_of_cons in Hz as [->|Hz]; [by left | by do 2 right]. }
        * done.
        * by apply IHub. }
  split.
  - by intros [= <-].
  - intros [Hm Hle]. f_equal. apply (anti_symm year_month_le); auto.
Qed.

(** The last month of a sorted table of months is [MAX] of the months. *)
Lemma last_sorted_months (l : list year_month) :
  last (merge_sort year_month_le (remove_dups l)) = sql_max_month l.
Proof.
  assert (StronglySorted year_month_le (merge_sort year_month_le (remove_dups l)))
    as Hs by apply (StronglySorted_merge_sort year_month_le).
  assert (∀ x, x ∈ merge_sort year_month_le (remove_dups l) ↔ x ∈ l) as Hmem.
  { intros x. by rewrite merge_sort_Permutation, elem_of_remove_dups. }
  destruct (last _) as [m|] eqn:Hlast.
  - symmetry. apply sql_max_month_spec. split.
    + by apply Hmem, last_Some_elem_of.
    + intros x Hx%Hmem.
      destruct (last_sorted_upper _ _ _ Hs Hlast x Hx) as [->|?];
        [reflexivity | done].
  - apply last_None in Hlast. destruct l as [|x l]; [done|].
    assert (x ∈ merge_sort year_month_le (remove_dups (x :: l))) as Hx
      by (apply Hmem; left).
    rewrite Hlast in Hx. by apply elem_of_nil in Hx.
Qed.

(** ** The tables of active users *)

Lemma users_on_inhabited (db : database) (e : Event) :
  e ∈ events db → e_user_id e ∈ users_on db (event_date e).
Proof.
  intros He. unfold users_on. apply list_elem_of_fmap_2.
  by apply list_elem_of_filter.
Qed.

(** X4: the daily table has one row for every day that has an event and no
    row for any other day, days strictly ascending; a row counts at least
    one user and at most as many users as the day has events. *)
Theorem dau_table_sparse_and_sorted (db : database) :
  StronglySorted Z.lt (d_date <$> (calculate_dau_mau db).1)
  ∧ (∀ d, d ∈ d_date <$> (calculate_dau_mau db).1
          ↔ d ∈ event_date <$> events db)
  ∧ Forall (λ r, (1 ≤ d_dau r)%nat
                 ∧ (d_dau r ≤ length (filter (λ e, event_date e = d_date r)
                                        (events db)))%nat)
      (calculate_dau_mau db).1.
Proof.
  simpl. split_and!.
  - rewrite dau_table_rows, <-list_fmap_compose.
    erewrite (list_fmap_ext _ id); [|done].
    rewrite list_fmap_id. apply sorted_NoDup_strict.
    + apply (StronglySorted_merge_sort Z.le).
    + rewrite merge_sort_Permutation. apply NoDup_remove_dups.
  - intros d. rewrite !list_elem_of_fmap. split.
    + intros (r & -> & (e & He & ->)%elem_of_dau_table). by exists e.
    + intros (e & -> & He). eexists. split; [|apply elem_of_dau_table; eauto].
      done.
  - apply Forall_forall. intros r (e & He & ->)%elem_of_dau_table. simpl. split.
    + eapply count_distinct_pos. by apply users_on_inhabited.
    + etransitivity; [apply count_distinct_le_length|].
      unfold users_on. by rewrite length_fmap.
Qed.

Lemma dau_of_month (db : database) (m : year_month) :
  d_dau <$> filter (λ r, d_month r = m) (dau_table db)
  = (λ d, count_distinct (users_on db d))
      <$> filter (λ d, strftime_Ym d = m)
            (merge_sort Z.le (remove_dups (event_date <$> events db))).
Proof.
  rewrite dau_table_rows.
  rewrite (filter_fmap_comm _ (λ r, d_month r = m)), <-list_fmap_compose.
  done.
Qed.

(** X5: a month's count of active users is at most the sum of the daily
    counts of its days; adding up daily rows counts a user once per day. *)
Theorem mau_at_most_sum_of_dau (db : database) :
  Forall (λ r, (m_mau r
                ≤ sum_counts (d_dau <$> filter (λ x, d_month x = m_month r)
                                          (calculate_dau_mau db).1))%nat)
    (calculate_dau_mau db).2.
Proof.
  simpl. apply Forall_forall. intros r (e0 & _ & ->)%elem_of_mau_table. simpl.
  rewrite dau_of_month. apply count_distinct_cover.
  intros u (e & -> & [Hm He]%list_elem_of_filter)%list_elem_of_fmap.
  exists (event_date e). split; [|by apply users_on_inhabited].
  apply list_elem_of_filter. split; [done|].
  rewrite merge_sort_Permutation, elem_of_remove_dups.
  by apply list_elem_of_fmap_2.
Qed.

(** ** The summary report: latest activity *)

Lemma latest_dau_on (db : database) (d : date) :
  sql_max (event_date <$> events db) = Some d →
  latest_dau db = count_distinct (users_on db d).
Proof.
  intros Hmax. unfold latest_dau, users_on. rewrite Hmax.
  f_equal. f_equal. apply list_filter_iff. intros e. naive_solver.
Qed.

Lemma latest_mau_in (db : database) (m : year_month) :
  sql_max_month (event_month <$> events db) = Some m →
  latest_mau db = count_distinct (users_in db m).
Proof.
  intros Hmax. unfold latest_mau, users_in. rewrite Hmax.
  f_equal. f_equal. apply list_filter_iff. intros e. naive_solver.
Qed.

Lemma latest_of_no_events (db : database) :
  events db = [] → latest_dau db = 0%nat ∧ latest_mau db = 0%nat.
Proof. unfold latest_dau, latest_mau. by intros ->. Qed.

(** X6: the latest DAU and the latest MAU of the report are the counts in
    the last row of the daily and of the monthly table of
    [calculate_dau_mau], and 0 when the tables have no row. *)
Theorem report_latest_is_last_row (db : database) :
  sr_latest_dau (generate_summary_report db)
  = default 0%nat (d_dau <$> last (calculate_dau_mau db).1)
  ∧ sr_latest_mau (generate_summary_report db)
    = default 0%nat (m_mau <$> last (calculate_dau_mau db).2).
Proof.
  simpl. split.
  - rewrite dau_table_rows, fmap_last, last_sorted_days.
    destruct (sql_max _) as [d|] eqn:Hmax; simpl.
    + by apply latest_dau_on.
    + unfold latest_dau. rewrite Hmax. by rewrite filter_nothing.
  - rewrite mau_table_rows, fmap_last, last_sorted_months.
    destruct (sql_max_month _) as [m|] eqn:Hmax; simpl.
    + by apply latest_mau_in.
    + unfold latest_mau. rewrite Hmax. by rewrite filter_nothing.
Qed.

(** The month of the latest day is the latest month. *)
Lemma latest_month_of_latest_day (db : database) (d : date) :
  sql_max (event_date <$> events db) = Some d →
  sql_max_month (event_month <$> events db) = Some (strftime_Ym d).
Proof.
  intros [Hin Hub]%sql_max_spec. apply sql_max_month_spec. split.
  - apply list_elem_of_fmap in Hin as (e & -> & He).
    by apply (list_elem_of_fmap_2 event_month).
  - intros m (e & -> & He)%list_elem_of_fmap. apply strftime_Ym_mono, Hub.
    by apply list_elem_of_fmap_2.
Qed.

Lemma latest_dau_le_mau (db : database) : (latest_dau db ≤ latest_mau db)%nat.
Proof.
  destruct (sql_max (event_date <$> events db)) as [d|] eqn:Hmax.
  - rewrite (latest_dau_on _ _ Hmax).
    rewrite (latest_mau_in _ _ (latest_month_of_latest_day _ _ Hmax)).
    apply count_distinct_mono. unfold users_on, users_in. intros u.
    rewrite !list_elem_of_fmap. intros (e & -> & [Hd He]%list_elem_of_filter).
    exists e. split; [done|]. apply list_elem_of_filter. split; [|done].
    unfold event_month. by rewrite Hd.
  - destruct (events db) as [|e es] eqn:Hev; [|done].
    destruct (latest_of_no_events db Hev) as [-> ->]. done.
Qed.

Lemma latest_mau_pos (db : database) :
  events db ≠ [] → (1 ≤ latest_mau db)%nat.
Proof.
  intros Hne.
  destruct (sql_max (event_date <$> events db)) as [d|] eqn:Hmax.
  - rewrite (latest_mau_in _ _ (latest_month_of_latest_day _ _ Hmax)).
    apply sql_max_spec in Hmax as [(e & -> & He)%list_elem_of_fmap _].
    apply (count_distinct_pos _ (e_user_id e)). unfold users_in.
    apply list_elem_of_fmap_2. by apply list_elem_of_filter.
  - destruct (events db); done.
Qed.

Lemma Q_of_nat_le (a b : nat) : (a ≤ b)%nat → (Q_of_nat a <= Q_of_nat b)%Q.
Proof. intros H. unfold Q_of_nat. rewrite <-Zle_Qle. lia. Qed.

Lemma Q_of_nat_pos (b : nat) : (0 < b)%nat → (0 < Q_of_nat b)%Q.
Proof.
  intros H. unfold Q_of_nat. change 0%Q with (inject_Z 0).
  rewrite <-Zlt_Qlt. lia.
Qed.

Lemma ratio_percent_bounds (a b : nat) (q : Q) :
  (a ≤ b)%nat → (λ q, q * 100)%Q <$> ratio a b = Some q →
  (0 <= q <= 100)%Q.
Proof.
  intros Hab. unfold ratio. destruct (decide (b = 0%nat)); [done|].
  intros [= <-].
  pose proof (Q_of_nat_pos b ltac:(lia)) as Hb.
  pose proof (Q_of_nat_le 0 a ltac:(lia)) as Ha. change (Q_of_nat 0) with 0%Q in Ha.
  pose proof (Q_of_nat_le a b Hab) as Hab'.
  assert (0 <= Q_of_nat a / Q_of_nat b <= 1)%Q as [H0 H1].
  { split.
    - apply Qle_shift_div_l; [done|]. lra.
    - apply Qle_shift_div_r; [done|]. lra. }
  split; lra.
Qed.

(** X7: in the report the latest DAU is at most the latest MAU, so the
    DAU/MAU ratio it prints is between 0 and 100 per cent; the ratio is no
    number exactly when [events] has no row. *)
Theorem report_dau_mau_ratio (db : database) :
  let r := generate_summary_report db in
  (sr_latest_dau r ≤ sr_latest_mau r)%nat
  ∧ (∀ q, sr_dau_mau_percent r = Some q → (0 <= q <= 100)%Q)
  ∧ (sr_dau_mau_percent r = None ↔ events db = []).
Proof.
  simpl. split_and!.
  - apply latest_dau_le_mau.
  - intros q. apply ratio_percent_bounds, latest_dau_le_mau.
  - unfold ratio. split.
    + destruct (decide (latest_mau db = 0%nat)) as [H0|]; [|done]. intros _.
      destruct (events db) as [|e es] eqn:Hev; [done|].
      assert (1 ≤ latest_mau db)%nat by (apply latest_mau_pos; by rewrite Hev).
      lia.
    + intros Hev. destruct (latest_of_no_events db Hev) as [_ ->]. done.
Qed.

Lemma report_dau_mau_ratio_witness :
  (0 <= 200 # 2 <= 100)%Q.
Proof.
  destruct (report_dau_mau_ratio db_two_months) as (_ & Hq & _).
  apply (Hq (200 # 2)%Q). vm_compute. reflexivity.
Defined.

(** ** Groups and their sizes *)

Lemma filter_length_mono {A} (P Q : A → Prop)
    `{!∀ x, Decision (P x), !∀ x, Decision (Q x)} (l : list A) :
  (∀ x, x ∈ l → P x → Q x) →
  (length (filter P l) ≤ length (filter Q l))%nat.
Proof.
  induction l as [|x l IH]; intros Himp; [done|].
  rewrite !filter_cons.
  assert (length (filter P l) ≤ length (filter Q l))%nat
    by (apply IH; intros; apply Himp; [by right | done]).
  destruct (decide (P x)) as [HP|], (decide (Q x)) as [|HQ]; simpl; try lia.
  exfalso. apply HQ, Himp; [left | done].
Qed.

Lemma sum_counts_app (l k : list nat) :
  sum_counts (l ++ k) = (sum_counts l + sum_counts k)%nat.
Proof. induction l as [|x l IH]; simpl; [done|]. rewrite IH. lia. Qed.

(** A key is counted by one of the distinct keys it is among. *)
Lemma one_key_matches {K} `{EqDecision K} (k : K) (ks : list K) :
  NoDup ks → k ∈ ks →
  sum_counts ((λ k', if decide (k = k') then 1%nat else 0%nat) <$> ks) = 1%nat.
Proof.
  induction 1 as [|k0 ks Hk0 Hnd IH]; [by intros ?%elem_of_nil|].
  intros Hk. csimpl. destruct (decide (k = k0)) as [->|Hne].
  - assert (sum_counts ((λ k', if decide (k0 = k') then 1%nat else 0%nat) <$> ks)
            = 0%nat) as ->; [|done].
    clear IH Hk Hnd. induction ks as [|k1 ks IH]; [done|]. csimpl.
    rewrite not_elem_of_cons in Hk0. destruct Hk0.
    rewrite decide_False by done. by rewrite IH.
  - apply elem_of_cons in Hk as [?|Hk]; [done|]. by rewrite IH.
Qed.

(** The groups of a [GROUP BY] share out the rows: their sizes add up to the
    number of rows. *)
Lemma partition_sizes {A K} `{EqDecision K} (key : A → K) (ks : list K)
    (rows : list A) :
  NoDup ks → (∀ r, r ∈ rows → key r ∈ ks) →
  sum_counts ((λ k, length (filter (λ r, key r = k) rows)) <$> ks)
  = length rows.
Proof.
  intros Hnd. induction rows as [|r rows IH]; intros Hin.
  - clear. induction ks as [|k ks IHk]; [done|]. csimpl. exact IHk.
  - change (length (r :: rows)) with (1 + length rows)%nat.
    rewrite <-IH by (intros; apply Hin; by right).
    rewrite <-(one_key_matches (key r) ks Hnd) by (apply Hin; left).
    clear. induction ks as [|k ks IHk]; [done|]. csimpl.
    rewrite filter_cons. destruct (decide (key r = k)); simpl; lia.
Qed.

Lemma group_sizes_sum {A K} `{EqDecision K} (key : A → K) (rows : list A) :
  sum_counts ((λ g, length g.2) <$> group_by key rows) = length rows.
Proof.
  unfold group_by. rewrite <-list_fmap_compose.
  rewrite <-(partition_sizes key (remove_dups (key <$> rows)) rows).
  - done.
  - apply NoDup_remove_dups.
  - intros r Hr. rewrite elem_of_remove_dups. by apply list_elem_of_fmap_2.
Qed.

(** ** Churn by plan: bounds, sums, thresholds *)

Lemma spec_churn_plans (as_of : date) (db : database) (n : Z) :
  c_plan <$> spec_churn_by_plan as_of db n
  = remove_dups (u_plan <$> filter (has_events db) (users db)).
Proof.
  unfold spec_churn_by_plan. rewrite <-list_fmap_compose.
  erewrite (list_fmap_ext _ id); [|done]. apply list_fmap_id.
Qed.

(** X8: a row of [calculate_churn] has at least one user, at most as many
    churned users as users, and a rate between 0 and 100; no plan has two
    rows; without users, or without events, the table has no row. *)
Theorem churn_rows_bounded (db : database) (n : Z) :
  Forall (λ r, (1 ≤ c_total_users r)%nat
               ∧ (c_churned r ≤ c_total_users r)%nat
               ∧ (0 <= c_churn_rate r <= 100)%Q)
    (calculate_churn db n)
  ∧ NoDup (c_plan <$> calculate_churn db n)
  ∧ calculate_churn (mkDatabase [] (events db)) n = []
  ∧ calculate_churn (mkDatabase (users db) []) n = [].
Proof.
  split_and!.
  - rewrite calculate_churn_rows. apply Forall_forall.
    intros r (u & Hu & Hev & ->)%elem_of_spec_churn. simpl.
    set (of_plan := filter (λ u', u_plan u' = u_plan u)
                      (filter (has_events db) (users db))).
    assert (u ∈ of_plan) as Hin
      by (unfold of_plan; by rewrite !list_elem_of_filter).
    assert (1 ≤ length of_plan)%nat
      by (destruct of_plan; [by apply elem_of_nil in Hin | simpl; lia]).
    pose proof (length_filter (is_churned churn_reference_date n db) of_plan).
    split; [done|]. split; [done|]. apply percentage_bounds; [done | lia].
  - rewrite calculate_churn_rows, spec_churn_plans. apply NoDup_remove_dups.
  - done.
  - rewrite calculate_churn_rows. unfold spec_churn_by_plan.
    rewrite filter_nothing; [done|]. intros u. unfold has_events. simpl.
    by intros ?%elem_of_nil.
Qed.

Lemma is_churned_antitone (as_of : date) (n n' : Z) (db : database) (u : User) :
  n ≤ n' → is_churned as_of n' db u → is_churned as_of n db u.
Proof.
  intros Hn. unfold is_churned. destruct (days_inactive _ _ _); [|done].
  rewrite !bool_decide_spec. lia.
Qed.

(** X9: a larger threshold never counts more users as churned: for
    [n ≤ n'] the two tables have the same plans with the same [total_users],
    row for row, and [churned] at [n'] is at most [churned] at [n]. *)
Theorem churn_antitone_in_threshold (db : database) (n n' : Z) :
  n ≤ n' →
  Forall2 (λ r r', c_plan r = c_plan r'
                   ∧ c_total_users r = c_total_users r'
                   ∧ (c_churned r' ≤ c_churned r)%nat)
    (calculate_churn db n) (calculate_churn db n').
Proof.
  intros Hn. rewrite !calculate_churn_rows. unfold spec_churn_by_plan.
  apply Forall2_fmap, Forall_Forall2_diag, Forall_forall. intros p _. simpl.
  split_and!; [done..|]. apply filter_length_mono. intros u _.
  by apply is_churned_antitone.
Qed.

Lemma churn_antitone_in_threshold_witness :
  Forall2 (λ r r', c_plan r = c_plan r'
                   ∧ c_total_users r = c_total_users r'
                   ∧ (c_churned r' ≤ c_churned r)%nat)
    (calculate_churn db_churn_example 30)
    (calculate_churn db_churn_example 90).
Proof. apply (churn_antitone_in_threshold db_churn_example 30 90). lia. Defined.

(** X10: over the plans, [total_users] adds up to the number of users that
    have an event, and [churned] to the number of those that are churned:
    every such user is counted in one row. *)
Theorem churn_totals (db : database) (n : Z) :
  sum_counts (c_total_users <$> calculate_churn db n)
  = length (filter (has_events db) (users db))
  ∧ sum_counts (c_churned <$> calculate_churn db n)
    = length (filter (is_churned churn_reference_date n db)
                (filter (has_events db) (users db))).
Proof.
  rewrite calculate_churn_rows. unfold spec_churn_by_plan.
  rewrite <-!list_fmap_compose.
  set (qualifying := filter (has_events db) (users db)). split.
  - rewrite <-(partition_sizes u_plan (remove_dups (u_plan <$> qualifying))
                 qualifying); [done|apply NoDup_remove_dups|].
    intros u Hu. rewrite elem_of_remove_dups. by apply list_elem_of_fmap_2.
  - rewrite <-(partition_sizes u_plan (remove_dups (u_plan <$> qualifying))
                 (filter (is_churned churn_reference_date n db) qualifying));
      [|apply NoDup_remove_dups|].
    + apply (f_equal sum_counts), list_fmap_ext. intros _ p _. simpl.
      rewrite !list_filter_filter. f_equal. apply list_filter_iff. tauto.
    + intros u [_ Hu]%list_elem_of_filter. rewrite elem_of_remove_dups.
      by apply list_elem_of_fmap_2.
Qed.

(** ** Feature adoption: rows and the top of the table *)

Lemma sum_counts_Permutation (l k : list nat) :
  l ≡ₚ k → sum_counts l = sum_counts k.
Proof. induction 1; simpl; lia. Qed.

Lemma feature_adoption_Permutation (db : database) :
  feature_adoption db ≡ₚ feature_groups db.
Proof. apply merge_sort_Permutation. Qed.

Lemma feature_adoption_StronglySorted (db : database) :
  StronglySorted (λ a b, (f_total_uses b ≤ f_total_uses a)%nat)
    (feature_adoption db).
Proof.
  assert (Total (λ a b : feature_row, flip le (f_total_uses a) (f_total_uses b)))
    as HTot by (intros x y; unfold flip; lia).
  apply Sorted_StronglySorted; [intros x y z; lia|].
  unfold feature_adoption, order_by. by apply Sorted_merge_sort.
Qed.

Lemma elem_of_feature_groups (db : database) (r : feature_row) :
  r ∈ feature_groups db
  ↔ ∃ e, e ∈ events db ∧ e_feature e ≠ None
         ∧ let g := filter (λ e', e_feature e' = e_feature e)
                      (filter (λ e', e_feature e' ≠ None) (events db)) in
           r = mkFeature (e_feature e) (length g)
                 (count_distinct (e_user_id <$> g))
                 (round2 <$> sql_avg (e_session_duration <$> g))
                 (count_distinct (event_date <$> g)).
Proof.
  unfold feature_groups. rewrite list_elem_of_fmap. split.
  - intros ([f g] & -> & [Hf ->]%elem_of_group_by).
    apply list_elem_of_fmap in Hf as (e & -> & [Hn He]%list_elem_of_filter).
    by exists e.
  - intros (e & He & Hn & ->). eexists (_, _). split; [done|].
    apply elem_of_group_by. split; [|done].
    apply list_elem_of_fmap_2. by apply list_elem_of_filter.
Qed.

(** X11: [feature_adoption] has one row for every feature that occurs in an
    event and none for events without feature.  In a row the distinct users
    and the distinct days are at least 1 and at most [total_uses], and there
    is an average duration; over the rows [total_uses] adds up to the number
    of events that have a feature. *)
Theorem feature_adoption_rows (db : database) :
  Forall (λ r, f_feature r ≠ None
               ∧ (1 ≤ f_unique_users r ≤ f_total_uses r)%nat
               ∧ (1 ≤ f_days_active r ≤ f_total_uses r)%nat
               ∧ is_Some (f_avg_duration r))
    (feature_adoption db)
  ∧ NoDup (f_feature <$> feature_adoption db)
  ∧ (∀ f, Some f ∈ f_feature <$> feature_adoption db
          ↔ Some f ∈ e_feature <$> events db)
  ∧ sum_counts (f_total_uses <$> feature_adoption db)
    = length (filter (λ e, e_feature e ≠ None) (events db)).
Proof.
  split_and!.
  - apply Forall_forall. intros r Hr.
    rewrite feature_adoption_Permutation in Hr.
    apply elem_of_feature_groups in Hr as (e & He & Hn & ->). simpl.
    set (g := filter (λ e', e_feature e' = e_feature e) _).
    assert (e ∈ g) as Hin by (unfold g; by rewrite !list_elem_of_filter).
    split; [done|]. split_and!.
    + apply (count_distinct_pos _ (e_user_id e)). by apply list_elem_of_fmap_2.
    + etransitivity; [apply count_distinct_le_length|]. by rewrite length_fmap.
    + apply (count_distinct_pos _ (event_date e)). by apply list_elem_of_fmap_2.
    + etransitivity; [apply count_distinct_le_length|]. by rewrite length_fmap.
    + destruct g; [by apply elem_of_nil in Hin|]. by eexists.
  - rewrite feature_adoption_Permutation. unfold feature_groups, group_by.
    rewrite <-!list_fmap_compose. erewrite (list_fmap_ext _ id); [|done].
    rewrite list_fmap_id. apply NoDup_remove_dups.
  - intros f. rewrite feature_adoption_Permutation.
    rewrite !list_elem_of_fmap. split.
    + intros (r & -> & (e & He & _ & ->)%elem_of_feature_groups). by exists e.
    + intros (e & Hf & He). eexists. split; [|apply elem_of_feature_groups].
      2: { exists e. split_and!; [done| |done]. by rewrite <-Hf. }
      done.
  - rewrite feature_adoption_Permutation. unfold feature_groups.
    rewrite <-list_fmap_compose. rewrite <-(group_sizes_sum e_feature).
    apply (f_equal sum_counts), list_fmap_ext. by intros _ [??] _.
Qed.

(** X12: the three features the report lists are the first three rows of
    [feature_adoption]; no feature left out is used more often than a listed
    one, and with three features or fewer all are listed. *)
Theorem report_top_features (db : database) :
  let top := sr_top_features (generate_summary_report db) in
  (length top ≤ 3)%nat
  ∧ top ++ drop 3 (feature_adoption db) = feature_adoption db
  ∧ (∀ r r', r ∈ top → r' ∈ drop 3 (feature_adoption db) →
             (f_total_uses r' ≤ f_total_uses r)%nat)
  ∧ ((length (feature_adoption db) ≤ 3)%nat → top = feature_adoption db).
Proof.
  simpl. split_and!.
  - rewrite length_take. lia.
  - apply take_drop.
  - intros r r' Hr Hr'.
    pose proof (feature_adoption_StronglySorted db) as Hs.
    rewrite <-(take_drop 3 (feature_adoption db)) in Hs.
    apply StronglySorted_app in Hs as (Hcross & _ & _). by apply Hcross.
  - intros Hlen. by apply take_ge.
Qed.

Lemma report_top_features_witness :
  sr_top_features (generate_summary_report db_two_months)
  = feature_adoption db_two_months.
Proof.
  destruct (report_top_features db_two_months) as (_ & _ & _ & H).
  apply H. vm_compute. lia.
Defined.

(** ** Plan distribution and averages of the report *)

(** X13: the plan distribution of the report has one row per plan that
    occurs in [users], users without plan being one more row; each row
    counts at least one user, the counts add up to the number of users, and
    each share is a number between 0 and 100 per cent. *)
Theorem report_plan_distribution (db : database) :
  let r := generate_summary_report db in
  NoDup ((λ x, x.1.1) <$> sr_plans r)
  ∧ sum_counts ((λ x, x.1.2) <$> sr_plans r) = sr_total_users r
  ∧ Forall (λ x, (1 ≤ x.1.2)%nat
                 ∧ ∃ q, x.2 = Some q ∧ (0 <= q <= 100)%Q)
      (sr_plans r)
  ∧ (∀ p, p ∈ (λ x, x.1.1) <$> sr_plans r ↔ p ∈ u_plan <$> users db).
Proof.
  simpl. unfold plan_counts, group_by. rewrite <-!list_fmap_compose.
  split_and!.
  - erewrite (list_fmap_ext _ id); [|done].
    rewrite list_fmap_id. apply NoDup_remove_dups.
  - rewrite <-(partition_sizes u_plan (remove_dups (u_plan <$> users db))
                 (users db)); [done|apply NoDup_remove_dups|].
    intros u Hu. rewrite elem_of_remove_dups. by apply list_elem_of_fmap_2.
  - apply Forall_fmap, Forall_forall. intros p Hp. simpl.
    rewrite elem_of_remove_dups in Hp.
    apply list_elem_of_fmap in Hp as (u & -> & Hu).
    set (g := filter (λ r, u_plan r = u_plan u) (users db)).
    assert (u ∈ g) as Hin by (unfold g; by apply list_elem_of_filter).
    assert (1 ≤ length g)%nat
      by (destruct g; [by apply elem_of_nil in Hin | simpl; lia]).
    pose proof (length_filter (λ r, u_plan r = u_plan u) (users db)).
    split; [done|].
    destruct ((λ q, q * 100)%Q <$> ratio (length g) (length (users db)))
      as [q|] eqn:Hq.
    + exists q. split; [done|]. by eapply ratio_percent_bounds.
    + exfalso. unfold ratio in Hq. fold g in H0.
      destruct (decide (length (users db) = 0%nat)); [lia | done].
  - intros p. erewrite (list_fmap_ext _ id); [|done].
    by rewrite list_fmap_id, elem_of_remove_dups.
Qed.

Lemma Qsum_bounds (lo hi : Q) (l : list Q) :
  Forall (λ x, lo <= x <= hi)%Q l →
  (lo * Q_of_nat (length l) <= foldr Qplus 0 l
   <= hi * Q_of_nat (length l))%Q.
Proof.
  induction 1 as [|x l [Hlo Hhi] _ [IHlo IHhi]]; simpl.
  - change (Q_of_nat 0) with 0%Q. split; lra.
  - assert (Q_of_nat (S (length l)) == 1 + Q_of_nat (length l))%Q as ->.
    { unfold Q_of_nat. rewrite Nat2Z.inj_succ, <-Z.add_1_l, inject_Z_plus. done. }
    split; lra.
Qed.

(** The mean of numbers between two bounds lies between the bounds. *)
Lemma sql_avg_bounds (lo hi : Q) (l : list Q) (q : Q) :
  Forall (λ x, lo <= x <= hi)%Q l → sql_avg l = Some q → (lo <= q <= hi)%Q.
Proof.
  intros Hl. destruct l as [|x l]; [done|]. intros [= <-].
  destruct (Qsum_bounds lo hi _ Hl) as [Hlo Hhi].
  pose proof (Q_of_nat_pos (length (x :: l)) ltac:(simpl; lia)) as Hpos.
  split.
  - apply Qle_shift_div_l; [done | exact Hlo].
  - apply Qle_shift_div_r; [done | exact Hhi].
Qed.

Lemma retention_rate_bounds (db : database) (days : Z) :
  Forall (λ x, 0 <= x <= 100)%Q (r_retention_rate <$> calculate_retention db days).
Proof.
  apply Forall_fmap, Forall_forall. intros r Hr.
  apply elem_of_calculate_retention in Hr as (c & g & Hg & ->). simpl.
  apply percentage_bounds; [|by apply group_by_inhabited in Hg].
  rewrite <-(length_fmap (λ r, r.2) g). apply sum_flags_le_length.
  apply Forall_fmap, Forall_forall. intros x Hx. simpl.
  apply elem_of_group_by in Hg as [_ ->].
  apply list_elem_of_filter in Hx as [_ Hx].
  by apply retention_check_flag in Hx.
Qed.

Lemma churn_rate_bounds (db : database) (n : Z) :
  Forall (λ x, 0 <= x <= 100)%Q (c_churn_rate <$> calculate_churn db n).
Proof.
  rewrite calculate_churn_rows. apply Forall_fmap, Forall_forall.
  intros r (u & Hu & Hev & ->)%elem_of_spec_churn. simpl.
  set (of_plan := filter (λ u', u_plan u' = u_plan u)
                    (filter (has_events db) (users db))).
  assert (u ∈ of_plan) as Hin
    by (unfold of_plan; by rewrite !list_elem_of_filter).
  apply percentage_bounds; [apply length_filter|].
  destruct of_plan; [by apply elem_of_nil in Hin | simpl; lia].
Qed.

(** X14: the average retention and the average churn of the report are the
    plain means of the rates of the rows; each is a number between 0 and 100
    whenever its table has a row, and no number when the table is empty,
    which for retention is exactly when [events] is empty. *)
Theorem report_averages (db : database) :
  let r := generate_summary_report db in
  (∀ q, sr_avg_retention r = Some q → (0 <= q <= 100)%Q)
  ∧ (∀ q, sr_avg_churn r = Some q → (0 <= q <= 100)%Q)
  ∧ (sr_avg_retention r = None ↔ events db = [])
  ∧ (sr_avg_churn r = None ↔ calculate_churn db 30 = []).
Proof.
  simpl. split_and!.
  - intros q. apply sql_avg_bounds, retention_rate_bounds.
  - intros q. apply sql_avg_bounds, churn_rate_bounds.
  - split.
    + intros Havg. destruct (events db) as [|e es] eqn:Hev; [done|]. exfalso.
      destruct (retention_cohort_of_event db 7 e) as (r & Hr & _).
      { rewrite Hev. left. }
      destruct (calculate_retention db 7); [by apply elem_of_nil in Hr | done].
    + intros Hev. destruct db as [us es]. simpl in Hev. by subst.
  - destruct (calculate_churn db 30); done.
Qed.

Lemma report_averages_witness : (0 <= 0 # 2 <= 100)%Q.
Proof.
  destruct (report_averages db_two_months) as (Hq & _).
  apply (Hq (0 # 2)%Q). vm_compute. reflexivity.
Defined.

(** ** Segmentation *)

Lemma filter_none_in {A} (P : A → Prop) `{∀ x, Decision (P x)} (l : list A) :
  (∀ x, x ∈ l → ¬ P x) → filter P l = [].
Proof.
  induction l as [|x l IH]; intros HP; [done|].
  rewrite filter_cons_False by (apply HP; left).
  apply IH. intros; apply HP; by right.
Qed.

Lemma filter_all_in {A} (P : A → Prop) `{∀ x, Decision (P x)} (l : list A) :
  (∀ x, x ∈ l → P x) → filter P l = l.
Proof.
  induction l as [|x l IH]; intros HP; [done|].
  rewrite filter_cons_True by (apply HP; left).
  f_equal. apply IH. intros; apply HP; by right.
Qed.

Lemma length_omap_le {A B} (f : A → option B) (l : list A) :
  (length (omap f l) ≤ length l)%nat.
Proof. induction l as [|x l IH]; csimpl; [done|]. destruct (f x); simpl; lia. Qed.

Lemma omap_app' {A B} (f : A → option B) (l k : list A) :
  omap f (l ++ k) = omap f l ++ omap f k.
Proof.
  induction l as [|x l IH]; csimpl; [done|]. rewrite IH. by destruct (f x).
Qed.

Lemma joined_rows_user (db : database) (u : User) r :
  r ∈ joined_rows db u → r.1 = u.
Proof.
  unfold joined_rows. destruct (filter _ _) as [|e0 es].
  - by intros ->%list_elem_of_singleton.
  - by intros (e & -> & _)%list_elem_of_fmap.
Qed.

Lemma joined_rows_events (db : database) (u : User) :
  omap snd (joined_rows db u) = events_of db (u_user_id u).
Proof.
  unfold joined_rows, events_of.
  rewrite (list_filter_iff (λ e, e_user_id e = u_user_id u)
             (λ e, bool_decide (u_user_id u = e_user_id e)))
    by (intros e; rewrite bool_decide_spec; naive_solver).
  destruct (filter _ _) as [|e es] eqn:Hf; [done|].
  generalize (e :: es). intros l. induction l as [|x l IH]; csimpl; congruence.
Qed.

Lemma segmentation_join (db : database) :
  left_join (λ u e, bool_decide (u_user_id u = e_user_id e))
    (users db) (events db)
  = users db ≫= joined_rows db.
Proof. done. Qed.

(** The group of a user whose [user_id] no other row of [users] has. *)
Lemma segment_group (db : database) (us : list User) (u : User) :
  NoDup (u_user_id <$> us) → u ∈ us →
  omap snd (filter (λ r, segment_key r.1 = segment_key u)
              (us ≫= joined_rows db))
  = events_of db (u_user_id u).
Proof.
  induction us as [|a us IH]; [by intros _ ?%elem_of_nil|].
  rewrite fmap_cons. intros [Ha Hnd]%NoDup_cons Hu.
  rewrite bind_cons, filter_app, omap_app'.
  destruct (decide (u_user_id a = u_user_id u)) as [Heq|Hne].
  - assert (a = u) as ->.
    { apply elem_of_cons in Hu as [->|Hu]; [done|]. exfalso. apply Ha.
      rewrite Heq. by apply list_elem_of_fmap_2. }
    rewrite filter_all_in
      by (intros r Hr; by rewrite (joined_rows_user _ _ _ Hr)).
    rewrite joined_rows_events.
    rewrite filter_none_in; [by rewrite app_nil_r|].
    intros r (a & Hr & Ha')%list_elem_of_bind.
    rewrite (joined_rows_user _ _ _ Hr). unfold segment_key. intros [= Hid _ _].
    apply Ha. rewrite <-Hid. by apply list_elem_of_fmap_2.
  - rewrite filter_none_in.
    + apply IH; [done|]. apply elem_of_cons in Hu as [->|Hu]; done.
    + intros r Hr. rewrite (joined_rows_user _ _ _ Hr). unfold segment_key.
      by intros [= ? _ _].
Qed.

Lemma elem_of_user_segmentation (db : database) (r : segment_row) :
  r ∈ user_segmentation db
  ↔ ∃ u, u ∈ users db
         ∧ let es := omap snd (filter (λ x, segment_key x.1 = segment_key u)
                                 (users db ≫= joined_rows db)) in
           r = mkSegment (u_user_id u) (u_plan u) (u_country u)
                 (length es)
                 (count_distinct (event_date <$> es))
                 (count_distinct (omap e_feature es))
                 (round2 <$> sql_avg (e_session_duration <$> es))
                 (engagement_of (length es)).
Proof.
  unfold user_segmentation. rewrite segmentation_join, list_elem_of_fmap. split.
  - intros ([k g] & -> & [Hk ->]%elem_of_group_by).
    apply list_elem_of_fmap in Hk as ([u oe] & -> & Hx).
    apply list_elem_of_bind in Hx as (a & Hx & Ha).
    apply joined_rows_user in Hx. simpl in Hx. subst a. by exists u.
  - intros (u & Hu & ->). eexists (segment_key u, _). split; [done|].
    apply elem_of_group_by. split; [|done].
    apply list_elem_of_fmap.
    destruct (left_join_covers (λ u e, bool_decide (u_user_id u = e_user_id e))
                (users db) (events db) u Hu) as [oe Hoe].
    by exists (u, oe).
Qed.

(** X15: every row of [users] is in a row of [user_segmentation], and no
    two rows of the result agree in user, plan and country.  In a row the
    distinct days and the distinct features are at most [total_events], the
    average is NULL exactly when [total_events] is 0, and the level is High
    above 100 events, Medium from 21 to 100 and Low up to 20. *)
Theorem segmentation_rows (db : database) :
  Forall (λ r, (s_active_days r ≤ s_total_events r)%nat
               ∧ (s_features_used r ≤ s_total_events r)%nat
               ∧ (s_avg_session_duration r = None ↔ s_total_events r = 0%nat)
               ∧ (s_engagement_level r = High ↔ (100 < s_total_events r)%nat)
               ∧ (s_engagement_level r = Medium
                  ↔ (20 < s_total_events r ≤ 100)%nat)
               ∧ (s_engagement_level r = Low ↔ (s_total_events r ≤ 20)%nat))
    (user_segmentation db)
  ∧ NoDup ((λ r, (s_user_id r, s_plan r, s_country r)) <$> user_segmentation db)
  ∧ (∀ u, u ∈ users db →
          ∃ r, r ∈ user_segmentation db ∧ s_user_id r = u_user_id u
               ∧ s_plan r = u_plan u ∧ s_country r = u_country u).
Proof.
  split_and!.
  - apply Forall_forall. intros r (u & Hu & ->)%elem_of_user_segmentation.
    simpl. generalize (omap snd (filter (λ x, segment_key x.1 = segment_key u)
                                   (users db ≫= joined_rows db))).
    intros es. split_and!.
    + etransitivity; [apply count_distinct_le_length|]. by rewrite length_fmap.
    + etransitivity; [apply count_distinct_le_length|]. apply length_omap_le.
    + destruct es as [|e es]; [done|]. split; intros [=].
    + unfold engagement_of.
      destruct (Nat.ltb_spec 100 (length es));
        [|destruct (Nat.ltb_spec 20 (length es))]; split; intros;
        try done; lia.
    + unfold engagement_of.
      destruct (Nat.ltb_spec 100 (length es));
        [|destruct (Nat.ltb_spec 20 (length es))]; split; intros;
        try done; lia.
    + unfold engagement_of.
      destruct (Nat.ltb_spec 100 (length es));
        [|destruct (Nat.ltb_spec 20 (length es))]; split; intros;
        try done; lia.
  - unfold user_segmentation, group_by. rewrite <-!list_fmap_compose.
    erewrite (list_fmap_ext _ id); [|by intros _ [[??]?] _].
    rewrite list_fmap_id. apply NoDup_remove_dups.
  - intros u Hu. eexists. split; [apply elem_of_user_segmentation; eauto|].
    done.
Qed.

Lemma segmentation_rows_witness :
  ∃ r, r ∈ user_segmentation db_idle_user ∧ s_user_id r = "u9"
       ∧ s_plan r = Some "Pro" ∧ s_country r = None.
Proof.
  destruct (segmentation_rows db_idle_user) as (_ & _ & H).
  apply (H (user_on_plan "u9" "Pro")). vm_compute. right. left.
Defined.

Lemma segmentation_keys (db : database) (k : string * option string * option string) :
  k ∈ (λ r : User * option Event, segment_key r.1)
        <$> (users db ≫= joined_rows db)
  ↔ k ∈ segment_key <$> users db.
Proof.
  rewrite !list_elem_of_fmap. split.
  - intros (r & -> & (a & Hr & Ha)%list_elem_of_bind).
    rewrite (joined_rows_user _ _ _ Hr). by exists a.
  - intros (u & -> & Hu).
    destruct (left_join_covers (λ u e, bool_decide (u_user_id u = e_user_id e))
                (users db) (events db) u Hu) as [oe Hoe].
    by exists (u, oe).
Qed.

Lemma segmentation_Permutation (db : database) :
  NoDup (u_user_id <$> users db) →
  user_segmentation db ≡ₚ segment_of db <$> users db.
Proof.
  intros Hnd. unfold user_segmentation. rewrite segmentation_join.
  unfold group_by. rewrite <-list_fmap_compose.
  change (λ r : User * option Event, (u_user_id r.1, u_plan r.1, u_country r.1))
    with (λ r : User * option Event, segment_key r.1).
  assert (remove_dups ((λ r : User * option Event, segment_key r.1)
                         <$> (users db ≫= joined_rows db))
          ≡ₚ segment_key <$> users db) as ->.
  { apply NoDup_Permutation.
    - apply NoDup_remove_dups.
    - apply (NoDup_fmap_1 (λ k : string * option string * option string, k.1.1)).
      by rewrite <-list_fmap_compose.
    - intros k. rewrite elem_of_remove_dups. apply segmentation_keys. }
  rewrite <-list_fmap_compose.
  erewrite list_fmap_ext; [done|].
  intros i u Hu%list_elem_of_lookup_2. unfold segment_of. cbv zeta.
  rewrite <-(segment_group db (users db) u Hnd Hu). done.
Qed.

Lemma events_of_known_users (db : database) :
  NoDup (u_user_id <$> users db) →
  sum_counts ((λ u, length (events_of db (u_user_id u))) <$> users db)
  = length (filter (λ e, e_user_id e ∈ u_user_id <$> users db) (events db)).
Proof.
  intros Hnd.
  rewrite <-(partition_sizes e_user_id (u_user_id <$> users db)
               (filter (λ e, e_user_id e ∈ u_user_id <$> users db) (events db)));
    [|done|by intros e [??]%list_elem_of_filter].
  rewrite <-list_fmap_compose. apply (f_equal sum_counts), list_fmap_ext.
  intros _ u Hu%list_elem_of_lookup_2. simpl. unfold events_of.
  rewrite list_filter_filter. f_equal. apply list_filter_iff. intros e.
  split; [|tauto]. intros He. split; [done|]. rewrite He.
  by apply list_elem_of_fmap_2.
Qed.

(** X16: when no two rows of [users] have the same [user_id], as after
    [load_data], [user_segmentation] has exactly one row per user, computed
    from the events of that user alone.  Over the rows [total_events] adds
    up to the number of events whose user is in [users]: an event of an
    unknown user is counted nowhere, every other event once. *)
Theorem segmentation_of_unique_users (db : database) :
  NoDup (u_user_id <$> users db) →
  user_segmentation db ≡ₚ segment_of db <$> users db
  ∧ length (user_segmentation db) = length (users db)
  ∧ sum_counts (s_total_events <$> user_segmentation db)
    = length (filter (λ e, e_user_id e ∈ u_user_id <$> users db) (events db)).
Proof.
  intros Hnd. pose proof (segmentation_Permutation db Hnd) as Hperm.
  split_and!.
  - done.
  - by rewrite Hperm, length_fmap.
  - rewrite (sum_counts_Permutation _ (s_total_events <$> (segment_of db <$> users db)))
      by (by apply fmap_Permutation).
    rewrite <-list_fmap_compose. by apply events_of_known_users.
Qed.

Lemma segmentation_of_unique_users_witness :
  user_segmentation db_two_months ≡ₚ segment_of db_two_months <$> users db_two_months
  ∧ length (user_segmentation db_two_months) = length (users db_two_months)
  ∧ sum_counts (s_total_events <$> user_segmentation db_two_months)
    = length (filter (λ e, e_user_id e ∈ u_user_id <$> users db_two_months)
                (events db_two_months)).
Proof.
  apply (segmentation_of_unique_users db_two_months).
  apply (bool_decide_unpack _). vm_compute. exact I.
Defined.


(** ** Retention, row for row *)

Lemma fmap_of_bind {A B C} (f : B → C) (g : A → list B) (l : list A) :
  f <$> (l ≫= g) = l ≫= (λ x, f <$> g x).
Proof.
  induction l as [|x l IH]; [done|]. by rewrite !bind_cons, fmap_app, IH.
Qed.

Lemma retention_check_bind (db : database) (days : Z) :
  retention_check db days = first_activity db ≫= retention_rows_of db days.
Proof.
  unfold retention_check, left_join. rewrite fmap_of_bind.
  apply list_bind_ext; [|done]. intros f. unfold retention_rows_of.
  destruct (filter _ _) as [|e es]; [done|].
  rewrite <-list_fmap_compose. done.
Qed.

Lemma filter_bind_key {A B} (P : B → Prop) (Q : A → Prop)
    `{!∀ x, Decision (P x), !∀ x, Decision (Q x)} (f : A → list B)
    (l : list A) :
  (∀ a r, r ∈ f a → P r ↔ Q a) → filter P (l ≫= f) = filter Q l ≫= f.
Proof.
  intros HPQ. induction l as [|a l IH]; [done|].
  rewrite bind_cons, filter_app, filter_cons, IH.
  destruct (decide (Q a)) as [HQ|HQ].
  - rewrite bind_cons. f_equal. apply filter_all_in. intros r Hr.
    by apply (HPQ a).
  - rewrite filter_none_in; [done|]. intros r Hr. by rewrite (HPQ a).
Qed.

Lemma length_bind {A B} (f : A → list B) (l : list A) :
  length (l ≫= f) = sum_counts ((λ a, length (f a)) <$> l).
Proof.
  induction l as [|a l IH]; [done|].
  rewrite bind_cons, length_app, IH. done.
Qed.

Lemma sum_flags_bind {A B} (f : A → list B) (flag : B → nat) (l : list A) :
  sum_flags (flag <$> (l ≫= f))
  = sum_counts ((λ a, sum_flags (flag <$> f a)) <$> l).
Proof.
  induction l as [|a l IH]; [done|].
  rewrite bind_cons, fmap_app. csimpl. rewrite <-IH.
  generalize (flag <$> f a) (flag <$> (l ≫= f)). clear.
  intros l1 l2. induction l1 as [|x l1 IH]; simpl; [done|]. rewrite IH. lia.
Qed.

Lemma returning_events (db : database) (days : Z) (u : string) :
  filter (λ e, bool_decide (u = e_user_id e)
               && bool_decide (Some (event_date e)
                               = date_plus_days (first_date db u) days))
    (events db)
  = filter (λ e, e_user_id e = u
                 ∧ Some (event_date e) = date_plus_days (first_date db u) days)
      (events db).
Proof.
  apply list_filter_iff. intros e.
  rewrite andb_True, !bool_decide_spec. split; intros [??]; split; congruence.
Qed.

Lemma retention_rows_of_counts (db : database) (days : Z) (u : string) :
  length (retention_rows_of db days (u, first_date db u))
  = (1 `max` returns db days u)%nat
  ∧ sum_flags ((λ r, r.2) <$> retention_rows_of db days (u, first_date db u))
    = returns db days u.
Proof.
  unfold retention_rows_of, returns. cbn [fst snd]. rewrite returning_events.
  destruct (filter _ _) as [|e es]; [done|].
  split.
  - rewrite length_fmap. simpl. lia.
  - generalize (e :: es). intros l.
    induction l as [|x l IH]; csimpl; [done|]. by rewrite IH.
Qed.

Lemma first_activity_of_cohort (db : database) (c : option year_month) :
  filter (λ f, strftime_Ym <$> f.2 = c) (first_activity db)
  = (λ u, (u, first_date db u)) <$> cohort_users db c.
Proof.
  rewrite first_activity_rows. unfold cohort_users.
  by rewrite (filter_fmap_comm _ (λ f : string * option Z, strftime_Ym <$> f.2 = c)).
Qed.

(** What [calculate_retention] counts, cohort by cohort. *)
Lemma retention_group (db : database) (days : Z) (c : option year_month) :
  let g := filter (λ r, strftime_Ym <$> r.1.2 = c) (retention_check db days) in
  length g
  = sum_counts ((λ u, (1 `max` returns db days u)%nat) <$> cohort_users db c)
  ∧ sum_flags ((λ r, r.2) <$> g)
    = sum_counts (returns db days <$> cohort_users db c).
Proof.
  simpl. rewrite retention_check_bind.
  rewrite (filter_bind_key _ (λ f : string * option Z, strftime_Ym <$> f.2 = c)).
  2: { intros f r. unfold retention_rows_of. destruct (filter _ _).
       - by intros ->%list_elem_of_singleton.
       - by intros (? & -> & _)%list_elem_of_fmap. }
  rewrite first_activity_of_cohort, length_bind, sum_flags_bind.
  rewrite <-!list_fmap_compose. split.
  - apply (f_equal sum_counts), list_fmap_ext. intros _ u _. simpl.
    apply retention_rows_of_counts.
  - apply (f_equal sum_counts), list_fmap_ext. intros _ u _. simpl.
    apply retention_rows_of_counts.
Qed.

Lemma sum_counts_ge_length (f : string → nat) (l : list string) :
  (∀ u, 1 ≤ f u)%nat → (length l ≤ sum_counts (f <$> l))%nat.
Proof.
  intros Hf. induction l as [|x l IH]; csimpl; [done|].
  specialize (Hf x). lia.
Qed.

Lemma cohort_users_inhabited (db : database) (days : Z) (r : retention_row) :
  r ∈ calculate_retention db days → (1 ≤ length (cohort_users db (r_cohort r)))%nat.
Proof.
  intros (c & g & [Hc ->]%elem_of_group_by & ->)%elem_of_calculate_retention.
  simpl. apply list_elem_of_fmap in Hc as (x & -> & Hx).
  rewrite retention_check_bind in Hx.
  apply list_elem_of_bind in Hx as (f & Hx & Hf).
  assert (x.1.2 = f.2) as ->.
  { unfold retention_rows_of in Hx. destruct (filter _ _).
    - by apply list_elem_of_singleton in Hx as ->.
    - by apply list_elem_of_fmap in Hx as (? & -> & _). }
  assert (f ∈ filter (λ f', strftime_Ym <$> f'.2 = strftime_Ym <$> f.2)
                (first_activity db)) as Hin by (by apply list_elem_of_filter).
  rewrite first_activity_of_cohort in Hin.
  apply list_elem_of_fmap in Hin as (u & _ & Hu).
  destruct (cohort_users _ _); [by apply elem_of_nil in Hu | simpl; lia].
Qed.

(** X17: a cohort row of [calculate_retention] is made of the users whose
    first event is in that month, but counts join rows: a user counts once
    in [total_users] when no event is dated [days] days after the first, and
    once per such event otherwise; [retained_users] is the number of such
    events.  So [total_users] is never below the number of users of the
    cohort, and no month has two rows. *)
Theorem retention_counts_events (db : database) (days : Z) :
  Forall (λ r,
      let us := cohort_users db (r_cohort r) in
      r_total_users r
      = sum_counts ((λ u, (1 `max` returns db days u)%nat) <$> us)
      ∧ r_retained_users r = sum_counts (returns db days <$> us)
      ∧ (1 ≤ length us ≤ r_total_users r)%nat
      ∧ NoDup us)
    (calculate_retention db days)
  ∧ NoDup (r_cohort <$> calculate_retention db days).
Proof.
  split.
  - apply Forall_forall. intros r Hr.
    pose proof (cohort_users_inhabited db days r Hr) as Hpos.
    apply elem_of_calculate_retention in Hr as (c & g & [_ ->]%elem_of_group_by & ->).
    simpl in *. destruct (retention_group db days c) as [Hlen Hsum].
    split; [done|]. split; [done|]. split.
    + split; [done|]. rewrite Hlen. apply sum_counts_ge_length. lia.
    + unfold cohort_users. apply NoDup_filter, NoDup_remove_dups.
  - unfold calculate_retention, group_by. rewrite <-!list_fmap_compose.
    erewrite (list_fmap_ext _ id); [|done].
    rewrite list_fmap_id. apply NoDup_remove_dups.
Qed.

Lemma filter_key_NoDup {A K} `{EqDecision K} (k : A → K) (c : K) (l : list A) :
  NoDup (k <$> l) → (length (filter (λ x, k x = c) l) ≤ 1)%nat.
Proof.
  induction l as [|x l IH]; [simpl; lia|]. rewrite fmap_cons.
  intros [Hx Hnd]%NoDup_cons. rewrite filter_cons.
  destruct (decide (k x = c)) as [<-|]; [|auto]. simpl.
  rewrite filter_none_in; [simpl; lia|]. intros y Hy Heq. apply Hx.
  rewrite <-Heq. by apply list_elem_of_fmap_2.
Qed.

Lemma returns_came_back (db : database) (days : Z) (u : string) :
  (1 ≤ returns db days u)%nat ↔ came_back db days u.
Proof.
  unfold returns, came_back. split.
  - destruct (filter _ _) as [|e es] eqn:Hf; simpl; [lia|]. intros _.
    assert (e ∈ filter (λ e, e_user_id e = u
              ∧ Some (event_date e) = date_plus_days (first_date db u) days)
              (events db)) as He by (rewrite Hf; left).
    apply list_elem_of_filter in He as [[??]?]. by exists e.
  - intros (e & He & Hu & Hd).
    assert (e ∈ filter (λ e, e_user_id e = u
              ∧ Some (event_date e) = date_plus_days (first_date db u) days)
              (events db)) as Hin by (by apply list_elem_of_filter).
    destruct (filter _ _); [by apply elem_of_nil in Hin | simpl; lia].
Qed.

Lemma returns_at_most_once (db : database) (days : Z) (u : string) :
  one_event_per_day db → (returns db days u ≤ 1)%nat.
Proof.
  intros Hone. unfold returns.
  destruct (date_plus_days (first_date db u) days) as [d|].
  - rewrite (list_filter_iff _ (λ e, (e_user_id e, event_date e) = (u, d)))
      by (intros e; split; [intros [? [= ?]] | intros [= ? ?]; split]; congruence).
    by apply (filter_key_NoDup (λ e, (e_user_id e, event_date e))).
  - rewrite filter_nothing; [simpl; lia|]. by intros e [_ ?].
Qed.

(** X18: when no user has two events on one day, [calculate_retention]
    counts users: [total_users] is the number of users whose first event is
    in the cohort month, [retained_users] the number of those with an event
    exactly [days] days after their first, and [retention_rate] their
    percentage. *)
Theorem retention_counts_users (db : database) (days : Z) :
  one_event_per_day db →
  Forall (λ r,
      let us := cohort_users db (r_cohort r) in
      r_total_users r = length us
      ∧ r_retained_users r = length (filter (came_back db days) us)
      ∧ r_retention_rate r
        = percentage (length (filter (came_back db days) us)) (length us))
    (calculate_retention db days).
Proof.
  intros Hone. apply Forall_forall. intros r Hr.
  apply elem_of_calculate_retention in Hr as (c & g & [_ ->]%elem_of_group_by & ->).
  simpl. destruct (retention_group db days c) as [Hlen Hsum]. simpl in *.
  rewrite Hlen, Hsum. clear Hlen Hsum.
  assert (sum_counts ((λ u, (1 `max` returns db days u)%nat) <$> cohort_users db c)
          = length (cohort_users db c)) as ->.
  { induction (cohort_users db c) as [|u us IH]; [done|]. csimpl. rewrite IH.
    pose proof (returns_at_most_once db days u Hone). lia. }
  assert (sum_counts (returns db days <$> cohort_users db c)
          = length (filter (came_back db days) (cohort_users db c))) as ->; [|done].
  induction (cohort_users db c) as [|u us IH]; [done|]. csimpl.
  rewrite filter_cons, IH.
  pose proof (returns_at_most_once db days u Hone).
  pose proof (returns_came_back db days u).
  destruct (decide (came_back db days u)); simpl; [|].
  - assert (1 ≤ returns db days u)%nat by tauto. lia.
  - assert (¬ (1 ≤ returns db days u)%nat) by tauto. lia.
Qed.

Lemma retention_counts_users_witness :
  Forall (λ r,
      let us := cohort_users db_week_later (r_cohort r) in
      r_total_users r = length us
      ∧ r_retained_users r = length (filter (came_back db_week_later 7) us)
      ∧ r_retention_rate r
        = percentage (length (filter (came_back db_week_later 7) us)) (length us))
    (calculate_retention db_week_later 7).
Proof.
  apply (retention_counts_users db_week_later 7).
  apply (bool_decide_unpack _). vm_compute. exact I.
Defined.

Lemma sql_min_spec (l : list Z) (m : Z) :
  sql_min l = Some m ↔ m ∈ l ∧ ∀ x, x ∈ l → m ≤ x.
Proof.
  destruct l as [|x l]; simpl.
  { split; [done|]. by intros [?%elem_of_nil _]. }
  assert (foldr Z.min x l ∈ x :: l ∧ ∀ y, y ∈ x :: l → foldr Z.min x l ≤ y)
    as [Hin Hlb].
  { induction l as [|y l [IHin IHlb]]; simpl.
    - split; [left|]. intros y [->|?%elem_of_nil]%elem_of_cons; [lia|done].
    - split.
      + destruct (Z.min_spec y (foldr Z.min x l)) as [[_ ->]|[_ ->]].
        * right; left.
        * apply elem_of_cons in IHin as [->|?]; [left | by do 2 right].
      + intros z Hz. assert (z = y ∨ z ∈ x :: l) as [->|Hz'].
        { apply elem_of_cons in Hz as [->|Hz]; [right; left|].
          apply elem_of_cons in Hz as [->|Hz]; [by left | by do 2 right]. }
        * lia.
        * specialize (IHlb z Hz'). lia. }
  split.
  - by intros [= <-].
  - intros [Hm Hle]. f_equal. specialize (Hle _ Hin). specialize (Hlb _ Hm). lia.
Qed.

Lemma percentage_full (n : nat) : (1 ≤ n)%nat → percentage n n = 100%Q.
Proof.
  intros Hn. unfold percentage. rewrite (round2_proper _ 100); [done|].
  pose proof (Q_of_nat_pos n ltac:(lia)). field. lra.
Qed.

Lemma returns_same_day (db : database) (u : string) :
  (∀ e, e ∈ events db → event_date e ≤ sqlite_max_date) →
  u ∈ e_user_id <$> events db → (1 ≤ returns db 0 u)%nat.
Proof.
  intros Hrange (e0 & -> & He0)%list_elem_of_fmap. apply returns_came_back.
  unfold came_back, first_date.
  destruct (sql_min (event_date <$> events_of db (e_user_id e0))) as [d|] eqn:Hmin.
  - apply sql_min_spec in Hmin as [(e & -> & [Hu He]%list_elem_of_filter)%list_elem_of_fmap _].
    exists e. split_and!; [done..|]. simpl. rewrite Z.add_0_r.
    rewrite (proj2 (Z.leb_le _ _) (Hrange e He)). done.
  - exfalso. assert (e0 ∈ events_of db (e_user_id e0)) as Hin
      by (by apply list_elem_of_filter).
    destruct (events_of db (e_user_id e0)); [by apply elem_of_nil in Hin|done].
Qed.

(** X19: with [days = 0] every user has come back on the first day: in
    every cohort [retained_users] equals [total_users] and the rate is 100,
    for events dated up to 9999-12-31, the range of SQLite's dates. *)
Theorem retention_same_day_is_full (db : database) :
  (∀ e, e ∈ events db → event_date e ≤ sqlite_max_date) →
  Forall (λ r, r_retained_users r = r_total_users r
               ∧ r_retention_rate r = 100%Q)
    (calculate_retention db 0).
Proof.
  intros Hrange. apply Forall_forall. intros r Hr.
  apply elem_of_calculate_retention in Hr as (c & g & Hg & ->). simpl.
  apply group_by_inhabited in Hg as Hpos.
  apply elem_of_group_by in Hg as [_ ->].
  destruct (retention_group db 0 c) as [Hlen Hsum]. simpl in *.
  assert (sum_flags ((λ r, r.2) <$> filter (λ r, strftime_Ym <$> r.1.2 = c)
                                      (retention_check db 0))
          = length (filter (λ r, strftime_Ym <$> r.1.2 = c)
                      (retention_check db 0))) as Heq.
  { rewrite Hlen, Hsum. apply (f_equal sum_counts), list_fmap_ext.
    intros _ u Hu%list_elem_of_lookup_2.
    assert (1 ≤ returns db 0 u)%nat; [|lia].
    apply returns_same_day; [done|]. unfold cohort_users in Hu.
    apply list_elem_of_filter in Hu as [_ Hu]. by rewrite elem_of_remove_dups in Hu. }
  rewrite Heq. split; [done|]. apply percentage_full. lia.
Qed.

Lemma retention_same_day_is_full_witness :
  Forall (λ r, r_retained_users r = r_total_users r
               ∧ r_retention_rate r = 100%Q)
    (calculate_retention db_two_returns 0).
Proof.
  apply (retention_same_day_is_full db_two_returns).
  intros e He. vm_compute in He.
  repeat (apply elem_of_cons in He as [->|He]; [by vm_compute|]).
  by apply elem_of_nil in He.
Defined.

(** ** Cohort activity *)

Lemma cohort_key_le_Z (a b : year_month * year_month) :
  cohort_key_le a b
  ↔ a.1.1 < b.1.1
    ∨ (a.1.1 = b.1.1 ∧ a.1.2 < b.1.2)
    ∨ (a.1.1 = b.1.1 ∧ a.1.2 = b.1.2 ∧ year_month_le a.2 b.2).
Proof.
  destruct a as [[a1 a2] a3], b as [[b1 b2] b3].
  unfold cohort_key_le, year_month_le. simpl. rewrite !pair_equal_spec. lia.
Qed.

#[global] Instance cohort_key_le_trans : Transitive cohort_key_le.
Proof.
  intros a b c. rewrite !cohort_key_le_Z. unfold year_month_le. lia.
Qed.

#[global] Instance cohort_key_le_antisymm : AntiSymm (=) cohort_key_le.
Proof.
  intros [[a1 a2] [a3 a4]] [[b1 b2] [b3 b4]].
  rewrite !cohort_key_le_Z. unfold year_month_le. simpl. intros ??.
  repeat f_equal; lia.
Qed.

#[global] Instance cohort_key_le_total : Total cohort_key_le.
Proof.
  intros a b. rewrite !cohort_key_le_Z. unfold year_month_le. lia.
Qed.

Lemma cohort_analysis_rows (db : database) :
  cohort_analysis db
  = (λ k, mkCohort k.1 k.2
            (count_distinct
               ((λ r, e_user_id r.2)
                  <$> filter (λ r, cohort_key r = k) (cohort_join db))))
      <$> merge_sort cohort_key_le (remove_dups (cohort_key <$> cohort_join db)).
Proof.
  unfold cohort_analysis, group_by.
  rewrite (order_by_tabulate cohort_key_le), <-list_fmap_compose. done.
Qed.

Lemma elem_of_cohort_join (db : database) (r : string * year_month * Event) :
  r ∈ cohort_join db
  ↔ ∃ u, u ∈ users db ∧ r.2 ∈ events db
         ∧ u_user_id u = e_user_id r.2
         ∧ r.1 = (u_user_id u, strftime_Ym (DATE (u_signup_date u))).
Proof.
  destruct r as [c e]. unfold cohort_join. rewrite elem_of_inner_join.
  unfold cohorts. rewrite list_elem_of_fmap, bool_decide_spec. simpl. split.
  - intros ((u & -> & Hu) & He & Hon). by exists u.
  - intros (u & Hu & He & Hid & ->). split_and!; [by exists u|done..].
Qed.

(** X20: [cohort_analysis] has one row for every pair of a signup month and
    an activity month in which a user of [users] with that signup month has
    an event, and no other row; rows come sorted by signup month, then by
    activity month.  A row counts at least one user and at most the users
    active in its activity month. *)
Theorem cohort_analysis_rows_sorted (db : database) :
  StronglySorted cohort_key_le
    ((λ r, (k_cohort_month r, k_activity_month r)) <$> cohort_analysis db)
  ∧ NoDup ((λ r, (k_cohort_month r, k_activity_month r)) <$> cohort_analysis db)
  ∧ (∀ c m, (c, m) ∈ (λ r, (k_cohort_month r, k_activity_month r))
                       <$> cohort_analysis db
            ↔ ∃ u e, u ∈ users db ∧ e ∈ events db
                     ∧ u_user_id u = e_user_id e
                     ∧ strftime_Ym (DATE (u_signup_date u)) = c
                     ∧ event_month e = m)
  ∧ Forall (λ r, (1 ≤ k_active_users r)%nat
                 ∧ (k_active_users r
                    ≤ count_distinct (users_in db (k_activity_month r)))%nat)
      (cohort_analysis db).
Proof.
  rewrite cohort_analysis_rows, <-!list_fmap_compose.
  assert (((λ r, (k_cohort_month r, k_activity_month r))
           ∘ (λ k : year_month * year_month, mkCohort k.1 k.2
                (count_distinct
                   ((λ r, e_user_id r.2)
                      <$> filter (λ r, cohort_key r = k) (cohort_join db)))))
          <$> merge_sort cohort_key_le (remove_dups (cohort_key <$> cohort_join db))
          = merge_sort cohort_key_le (remove_dups (cohort_key <$> cohort_join db)))
    as ->.
  { erewrite (list_fmap_ext _ id); [apply list_fmap_id|]. by intros _ [??] _. }
  split_and!.
  - apply (StronglySorted_merge_sort cohort_key_le).
  - rewrite merge_sort_Permutation. apply NoDup_remove_dups.
  - intros c m. rewrite merge_sort_Permutation, elem_of_remove_dups.
    rewrite list_elem_of_fmap. split.
    + intros ([[uid c'] e] & [= -> ->] & (u & Hu & He & Hid & [= -> ->])%elem_of_cohort_join).
      by exists u, e.
    + intros (u & e & Hu & He & Hid & <- & <-).
      exists (u_user_id u, strftime_Ym (DATE (u_signup_date u)), e).
      split; [done|]. apply elem_of_cohort_join. by exists u.
  - apply Forall_fmap, Forall_forall. intros k Hk. simpl.
    rewrite merge_sort_Permutation, elem_of_remove_dups in Hk.
    apply list_elem_of_fmap in Hk as (r & -> & Hr). split.
    + apply (count_distinct_pos _ (e_user_id r.2)).
      apply (list_elem_of_fmap_2 (λ r, e_user_id r.2)).
      by apply list_elem_of_filter.
    + apply count_distinct_mono. intros uid.
      intros (r' & -> & [Hk Hr']%list_elem_of_filter)%list_elem_of_fmap.
      apply elem_of_cohort_join in Hr' as (u & _ & He & _).
      unfold users_in. apply list_elem_of_fmap_2, list_elem_of_filter.
      split; [|done]. by apply (f_equal snd) in Hk.
Qed.

Lemma cohort_join_without_orphan (db : database) (uid : string) :
  uid ∉ u_user_id <$> users db →
  cohort_join (without_events_of db uid) = cohort_join db.
Proof.
  intros Horphan. unfold cohort_join, inner_join. simpl.
  apply Forall_bind_ext, Forall_forall. intros c Hc. f_equal.
  rewrite list_filter_filter. apply list_filter_iff. intros e.
  rewrite bool_decide_spec. split; [tauto|]. intros He. split; [done|].
  rewrite <-He. intros Heq. apply Horphan. rewrite <-Heq.
  unfold cohorts in Hc. apply list_elem_of_fmap in Hc as (u & -> & Hu).
  simpl. by apply list_elem_of_fmap_2.
Qed.

(** X21: the events of a user that [users] does not have change no row of
    [cohort_analysis]. *)
Theorem cohort_analysis_drops_orphans (db : database) (uid : string) :
  uid ∉ u_user_id <$> users db →
  cohort_analysis (without_events_of db uid) = cohort_analysis db.
Proof.
  intros Horphan. rewrite !cohort_analysis_rows.
  by rewrite cohort_join_without_orphan.
Qed.

Lemma cohort_analysis_drops_orphans_witness :
  cohort_analysis (without_events_of db_two_months "u3")
  = cohort_analysis db_two_months.
Proof.
  apply (cohort_analysis_drops_orphans db_two_months "u3").
  apply (bool_decide_unpack _). vm_compute. exact I.
Defined.

(** ** The engine on loaded tables *)

Lemma load_data_users_NoDup (csv_users : list raw_user)
    (csv_events : list raw_event) :
  NoDup (u_user_id <$> users (load_data csv_users csv_events)).
Proof.
  simpl. apply (omap_keys_NoDup _ ru_user_id); [apply clean_user_id|].
  apply drop_duplicates_from_NoDup.
Qed.

(** X22: on the tables [load_data] writes, [user_segmentation] has exactly
    one row per user, no [user_id] twice, and [calculate_churn] counts every
    user at most once: its [total_users] add up to at most the number of
    users. *)
Theorem engine_after_load (csv_users : list raw_user)
    (csv_events : list raw_event) (n : Z) :
  let db := load_data csv_users csv_events in
  user_segmentation db ≡ₚ segment_of db <$> users db
  ∧ NoDup (s_user_id <$> user_segmentation db)
  ∧ (sum_counts (c_total_users <$> calculate_churn db n) ≤ length (users db))%nat.
Proof.
  intros db. pose proof (load_data_users_NoDup csv_users csv_events) as Hnd.
  fold db in Hnd. pose proof (segmentation_Permutation db Hnd) as Hperm.
  split_and!.
  - done.
  - rewrite Hperm, <-list_fmap_compose. exact Hnd.
  - rewrite calculate_churn_rows. unfold spec_churn_by_plan.
    rewrite <-list_fmap_compose.
    set (qualifying := filter (has_events db) (users db)).
    etransitivity; [|apply (length_filter (has_events db) (users db))].
    fold qualifying.
    rewrite <-(partition_sizes u_plan (remove_dups (u_plan <$> qualifying))
                 qualifying); [done|apply NoDup_remove_dups|].
    intros u Hu. rewrite elem_of_remove_dups. by apply list_elem_of_fmap_2.
Qed.
